(** * Authentio: the mail dispatcher (pkg/email) and the password utility

    A shallow embedding of [pkg/email/email.go] and of the [password]
    package, and the properties of the specification proved over it.

    Go strings are byte strings: they are modelled as [string] (a list of
    8-bit [ascii]); [[]byte] values are [list byte].  A Go [int] (the port,
    the bcrypt cost) is a [Z].  The header table of [Send] is a Go map and
    is modelled as a [gmap string string]; the order in which [range]
    visits it belongs to the Go runtime and is an input of the model.  The
    network (crypto/tls, net/smtp) is an environment that answers every
    call; the embedding records each call in a log. *)

From Stdlib Require Import ZArith Ascii String List Lia.
From stdpp Require Import base option list gmap strings pretty.

Local Open Scope string_scope.
Local Open Scope list_scope.
Local Open Scope Z_scope.

#[local] Set Warnings "-clear-no-such-hyp".

(** ** The Go library functions the code calls *)

Module Go.

Definition CR : ascii := ascii_of_nat 13.
Definition LF : ascii := ascii_of_nat 10.
Definition DQUOTE : ascii := ascii_of_nat 34.

(** The two bytes written by the escape [\r\n] of a Go string literal. *)
Definition CRLF : string := String CR (String LF EmptyString).

(** [strings.Join(elems, sep)] *)
Fixpoint Join (elems : list string) (sep : string) : string :=
  match elems with
  | [] => EmptyString
  | [e] => e
  | e :: rest => e +:+ sep +:+ Join rest sep
  end.

(** [strconv.Itoa(i)]: the decimal rendering of an [int]. *)
Definition Itoa (i : Z) : string := pretty i.

(** The value of a decimal digit, [ch - '0'] when it is at most 9. *)
Definition digitVal (ch : ascii) : option Z :=
  let n := Z.of_N (N_of_ascii ch) in
  if (48 <=? n) && (n <=? 57) then Some (n - 48) else None.

(** The digit loop of [strconv.Atoi]: [n = n*10 + int(ch)]. *)
Fixpoint parseDigits (s : string) (n : Z) : option Z :=
  match s with
  | EmptyString => Some n
  | String ch rest => d ← digitVal ch; parseDigits rest (n * 10 + d)
  end.

(** [strconv.Atoi(s)] on a 64-bit platform: an optional sign and at least
    one decimal digit, and a value that fits an [int]; [None] is a
    non-nil [err]. *)
Definition Atoi (s : string) : option Z :=
  match s with
  | EmptyString => None
  | String s0 rest =>
      let neg := Ascii.eqb s0 "-" in
      let digits := if neg || Ascii.eqb s0 "+" then rest else s in
      match digits with
      | EmptyString => None
      | _ =>
          n ← parseDigits digits 0;
          let n := if neg then - n else n in
          if (- 2 ^ 63 <=? n) && (n <? 2 ^ 63) then Some n else None
      end
  end.

(** [os.Getenv(key)]: the value of the variable, empty when it is not
    set. *)
Definition Getenv (env : gmap string string) (key : string) : string :=
  default EmptyString (env !! key).

(** [strings.HasPrefix(s, prefix)] *)
Fixpoint HasPrefix (s prefix : string) {struct prefix} : bool :=
  match prefix with
  | EmptyString => true
  | String a prefix' =>
      match s with
      | EmptyString => false
      | String b s' => Ascii.eqb a b && HasPrefix s' prefix'
      end
  end.

(** [strings.Contains(s, substr)] *)
Fixpoint Contains (s substr : string) : bool :=
  HasPrefix s substr
  || match s with
     | EmptyString => false
     | String _ rest => Contains rest substr
     end.

(** [strings.IndexByte(s, c) >= 0] *)
Fixpoint containsByte (c : ascii) (s : string) : bool :=
  match s with
  | EmptyString => false
  | String a rest => if Ascii.eqb a c then true else containsByte c rest
  end.

(** [net.JoinHostPort(host, port)]: a host holding a colon or a percent
    sign (an IPv6 literal) is put in square brackets. *)
Definition JoinHostPort (host port : string) : string :=
  if containsByte ":" host || containsByte "%" host
  then "[" +:+ host +:+ "]:" +:+ port
  else host +:+ ":" +:+ port.

(** The [error] interface.  [errorString] is an error that carries only
    its text (errors.New, fmt.Errorf without [%w], and the errors of the
    network libraries); [wrapError] is what [fmt.Errorf] builds for a
    format with [%w]: the formatted text and the wrapped error. *)
Inductive error : Type :=
| errorString (s : string)
| wrapError (msg : string) (err : error).

(** [err.Error()] *)
Definition Error (e : error) : string :=
  match e with
  | errorString s => s
  | wrapError msg _ => msg
  end.

(** [errors.Unwrap(err)] *)
Definition Unwrap (e : error) : option error :=
  match e with
  | errorString _ => None
  | wrapError _ err => Some err
  end.

(** [fmt.Errorf(prefix + "%w", err)]: every wrapping format of the
    package is a fixed or computed prefix followed by [%w]. *)
Definition Errorf_w (prefix : string) (err : error) : error :=
  wrapError (prefix +:+ Error err) err.

(** [for k, v := range m] over a map: the runtime yields each entry
    once, in an order of its own choosing.  [ord] is the order in which
    the keys are visited during one loop. *)
Definition rangeMap (ord : list string) (m : gmap string string)
  : list (string * string) :=
  omap (λ k, (λ v, (k, v)) <$> m !! k) ord.

(** The orders the runtime may choose: the keys of the map, each once. *)
Definition RangeOrder (m : gmap string string) (ord : list string) : Prop :=
  ord ≡ₚ (map_to_list m).*1.

End Go.

Import Go.

(** ** pkg/email *)

Module Email.

(** [type Client struct] *)
Record Client : Type := mkClient {
  Host : string;
  Port : Z;
  Username : string;
  Password : string;
  From : string
}.

(** [func NewClient] *)
Definition NewClient (host : string) (port : Z) (username password from : string)
  : Client :=
  {| Host := host; Port := port; Username := username;
     Password := password; From := from |}.

(** The sender address of [Send]: [c.From], or [c.Username] when it is
    empty. *)
Definition sender (c : Client) : string :=
  if decide (From c = EmptyString) then Username c else From c.

(** The header table of [Send] (the five assignments to [headers]). *)
Definition headers (from : string) (to : list string) (subject : string)
  : gmap string string :=
  <["Content-Type" := "text/html; charset=" +:+ String DQUOTE ("utf-8" +:+ String DQUOTE EmptyString)]>
  (<["MIME-Version" := "1.0"]>
  (<["Subject" := subject]>
  (<["To" := Join to ","]>
  (<["From" := from]> ∅)))).

(** [fmt.Sprintf("%s: %s\r\n", k, v)] *)
Definition headerLine (kv : string * string) : string :=
  kv.1 +:+ ": " +:+ kv.2 +:+ CRLF.

(** The loop that writes the header lines into the builder. *)
Fixpoint writeHeaders (kvs : list (string * string)) (msg : string) : string :=
  match kvs with
  | [] => msg
  | kv :: rest => writeHeaders rest (msg +:+ headerLine kv)
  end.

(** The envelope-building step of [Send]: the content of the builder
    [msg] after the header loop, the blank line and the body.  [ord] is
    the order in which [range headers] visits the table. *)
Definition buildMessage (ord : list string) (from : string) (to : list string)
    (subject body : string) : string :=
  let msg := EmptyString in
  let msg := writeHeaders (rangeMap ord (headers from to subject)) msg in
  let msg := msg +:+ CRLF in
  msg +:+ body.

(** *** The network and the log *)

(** [tls.Config], the two fields the code sets. *)
Record tlsConfig : Type := mkTlsConfig {
  InsecureSkipVerify : bool;
  ServerName : string
}.

(** [smtp.Auth] as built by [smtp.PlainAuth(identity, username, password,
    host)].  A parameter of type [smtp.Auth] may be nil: [option Auth]. *)
Record Auth : Type := mkPlainAuth {
  identity : string;
  username : string;
  password : string;
  host : string
}.

Definition PlainAuth (identity username password host : string) : option Auth :=
  Some (mkPlainAuth identity username password host).

(** A value passed to the logger after a key. *)
Inductive logValue : Type :=
| logString (s : string)
| logError (e : error).

(** What the program does to the outside world, one constructor per
    library call of the package. *)
Inductive Event : Type :=
| EvDial (network addr : string) (cfg : tlsConfig)        (* tls.Dial *)
| EvConnClose                                             (* conn.Close *)
| EvNewClient (host : string)                             (* smtp.NewClient *)
| EvClientClose                                           (* client.Close *)
| EvExtension (ext : string)                              (* client.Extension *)
| EvAuth (a : Auth)                                       (* client.Auth *)
| EvMail (from : string)                                  (* client.Mail *)
| EvRcpt (addr : string)                                  (* client.Rcpt *)
| EvData                                                  (* client.Data *)
| EvWrite (msg : list Byte.byte)                          (* wc.Write *)
| EvWriterClose                                           (* wc.Close *)
| EvQuit                                                  (* client.Quit *)
| EvSendMail (addr : string) (a : option Auth) (from : string)
             (to : list string) (msg : list Byte.byte)    (* smtp.SendMail *)
| EvWarn (msg : string) (kv : list (string * logValue)).  (* logger.Warn *)

(** What came back from a call: an [error] (nil is [None]), the two
    results of [client.Extension], or nothing. *)
Inductive Reply : Type :=
| Done (err : option error)
| Ext (ok : bool) (param : string)
| Logged.

(** One line of the log: a call and what it returned. *)
Definition Entry : Type := Event * Reply.

(** Log lines can be compared, so that membership in a log is
    decidable. *)
#[global] Instance byte_eq_dec : EqDecision Byte.byte := Byte.byte_eq_dec.
#[global] Instance error_eq_dec : EqDecision error.
Proof. solve_decision. Defined.
#[global] Instance tlsConfig_eq_dec : EqDecision tlsConfig.
Proof. solve_decision. Defined.
#[global] Instance Auth_eq_dec : EqDecision Auth.
Proof. solve_decision. Defined.
#[global] Instance logValue_eq_dec : EqDecision logValue.
Proof. solve_decision. Defined.
#[global] Instance Event_eq_dec : EqDecision Event.
Proof. solve_decision. Defined.
#[global] Instance Reply_eq_dec : EqDecision Reply.
Proof. solve_decision. Defined.
#[global] Instance Entry_eq_dec : EqDecision Entry.
Proof. unfold Entry. apply _. Defined.

(** The world outside the program: the order in which the runtime
    iterates the header table during this call, and the answer of the
    network to each call, which may depend on everything that happened
    so far. *)
Record World : Type := mkWorld {
  rangeOrder : list string;
  reply : list Entry → Event → option error;
  extension : list Entry → string → bool * string
}.

(** Computations: the log so far is threaded through. *)
Definition M (A : Type) : Type := list Entry → A * list Entry.

#[global] Instance M_ret : MRet M := λ A a h, (a, h).

#[global] Instance M_bind : MBind M := λ A B k m h,
  let (a, h') := m h in k a h'.

(** [defer d; body]: [d] runs when the function returns, whatever the
    result; what [d] returns is dropped. *)
Definition defer {A B} (d : M B) (body : M A) : M A :=
  r ← body; d;; mret r.

Section Program.

Variable w : World.

(** A library call that returns an [error]. *)
Definition call (ev : Event) : M (option error) :=
  λ h, let r := reply w h ev in (r, h ++ [(ev, Done r)]).

(** [client.Extension(ext)] *)
Definition Extension (ext : string) : M (bool * string) :=
  λ h, let r := extension w h ext in
       (r, h ++ [(EvExtension ext, Ext r.1 r.2)]).

(** Modelled from the spec: [logger.Warn] of authentio/pkg/logger is not
    among the sources; the failure "is logged as a warning (non-fatal at
    this stage)", so the call records the message and its key-value
    pairs and returns. *)
Definition Warn (msg : string) (kv : list (string * logValue)) : M unit :=
  λ h, (tt, h ++ [(EvWarn msg kv, Logged)]).

(** [if err := m; err != nil { return fmt.Errorf(prefix + "%w", err) }],
    followed by [k]. *)
Definition orReturn (m : M (option error)) (prefix : string)
    (k : M (option error)) : M (option error) :=
  err ← m ;
  match err with
  | Some err => mret (Some (Errorf_w prefix err))
  | None => k
  end.

(** The loop [for _, addr := range to] of [sendUsingTLS], followed by
    [k]. *)
Fixpoint rcptLoop (to : list string) (k : M (option error)) : M (option error) :=
  match to with
  | [] => k
  | addr :: rest =>
      orReturn (call (EvRcpt addr)) ("rcpt to " +:+ addr +:+ " failed: ")
        (rcptLoop rest k)
  end.

(** The authentication block of [sendUsingTLS], followed by [k]. *)
Definition authBlock (auth : option Auth) (k : M (option error)) : M (option error) :=
  match auth with
  | Some a =>
      '(ok, _) ← Extension "AUTH";
      if ok : bool then orReturn (call (EvAuth a)) "auth failed: " k else k
  | None => k
  end.

(** [func (c *Client) sendUsingTLS] *)
Definition sendUsingTLS (c : Client) (addr : string) (auth : option Auth)
    (from : string) (to : list string) (msg : list Byte.byte) : M (option error) :=
  let tlsconfig := {| InsecureSkipVerify := false; ServerName := Host c |} in
  orReturn (call (EvDial "tcp" addr tlsconfig)) "tls dial: " (
  defer (call EvConnClose) (
  orReturn (call (EvNewClient (Host c))) "new smtp client: " (
  defer (call EvClientClose) (
  authBlock auth (
  orReturn (call (EvMail from)) "mail from failed: " (
  rcptLoop to (
  orReturn (call EvData) "data command failed: " (
  orReturn (call (EvWrite msg)) "write message failed: " (
  orReturn (call EvWriterClose) "close writer failed: " (
  orReturn (call EvQuit) "quit failed: " (
  mret None))))))))))).

(** [func (c *Client) Send] *)
Definition Send (c : Client) (to : list string) (subject body : string)
  : M (option error) :=
  if decide (length to = 0%nat)
  then mret (Some (errorString "no recipients specified"))
  else
    let from := sender c in
    let msg := buildMessage (rangeOrder w) from to subject body in
    let addr := JoinHostPort (Host c) (Itoa (Port c)) in
    let auth := PlainAuth EmptyString (Username c) (Password c) (Host c) in
    if decide (Port c = 465)
    then sendUsingTLS c addr auth from to (list_byte_of_string msg)
    else
      err ← call (EvSendMail addr auth from to (list_byte_of_string msg));
      match err with
      | Some err =>
          Warn "smtp.SendMail failed, falling back to direct TLS"
               [("error", logError err)];;
          sendUsingTLS c addr auth from to (list_byte_of_string msg)
      | None => mret None
      end.

(** [func (c *Client) SendOTP] *)
Definition SendOTP (c : Client) (to code : string) : M (option error) :=
  let subject := "Your verification code" in
  let body := "<p>Your verification code is <strong>" +:+ code
              +:+ "</strong>. It will expire in 10 minutes.</p>" in
  Send c [to] subject body.


End Program.

End Email.

(** ** The password package *)

Module Password.

(** golang.org/x/crypto/bcrypt, as far as the package uses it.
    [GenerateFromPassword] draws its salt from the random source of the
    process: [rnd] stands for the bytes it reads during the call.  A Go
    result [(value, error)] with a nil value on error is a [sum].  The law
    is the contract of the library: a hash it produced for a password
    compares as equal to that password. *)
Class Bcrypt : Type := {
  DefaultCost : Z;
  GenerateFromPassword :
    list Byte.byte → list Byte.byte → Z → list Byte.byte + error;
  CompareHashAndPassword : list Byte.byte → list Byte.byte → option error;
  compare_generated : ∀ rnd password cost hashed,
    GenerateFromPassword rnd password cost = inl hashed →
    CompareHashAndPassword hashed password = None
}.

Section Package.

Context `{Bcrypt}.

(** [func Hash]: [env] is the environment of the process and [rnd] the
    random bytes available when the call is made. *)
Definition Hash (env : gmap string string) (rnd : list Byte.byte)
    (password : string) : string * option error :=
  let cost := DefaultCost in
  let cost :=
    let c := Getenv env "BCRYPT_COST" in
    if decide (c ≠ EmptyString)
    then match Atoi c with
         | Some parsed => parsed
         | None => cost
         end
    else cost in
  match GenerateFromPassword rnd (list_byte_of_string password) cost with
  | inr err => (EmptyString, Some err)
  | inl hashedPassword => (string_of_list_byte hashedPassword, None)
  end.


(** What [Hash] returns once the cost is known: the last five lines
    of the function. *)
Definition hashWithCost (cost : Z) (rnd : list Byte.byte) (password : string)
  : string * option error :=
  match GenerateFromPassword rnd (list_byte_of_string password) cost with
  | inr err => (EmptyString, Some err)
  | inl hashedPassword => (string_of_list_byte hashedPassword, None)
  end.

End Package.

(** A stand-in for the library, to run the package on examples.  It
    keeps the cost rules of bcrypt (a cost under 4 is replaced by the
    default, a cost over 31 and a password over 72 bytes are errors) and
    puts a reversible encoding in the place of the hash: the cost, then
    the password backwards. *)
Definition toyGenerate (rnd password : list Byte.byte) (cost : Z)
  : list Byte.byte + error :=
  if 72 <? Z.of_nat (length password)
  then inr (errorString "bcrypt: password length exceeds 72 bytes")
  else
    let cost := if cost <? 4 then 10 else cost in
    if 31 <? cost
    then inr (errorString "crypto/bcrypt: cost outside allowed range")
    else inl (default Byte.x00 (Byte.of_N (Z.to_N cost)) :: rev password).

Definition toyCompare (hashed password : list Byte.byte) : option error :=
  match hashed with
  | _ :: h =>
      if decide (h = rev password) then None
      else Some (errorString
             "crypto/bcrypt: hashedPassword is not the hash of the given password")
  | [] => Some (errorString
             "crypto/bcrypt: hashedSecret too short to be a bcrypted password")
  end.

Definition toyBcrypt : Bcrypt.
Proof.
  refine {| DefaultCost := 10;
            GenerateFromPassword := toyGenerate;
            CompareHashAndPassword := toyCompare |}.
  intros rnd password cost hashed. unfold toyGenerate, toyCompare.
  destruct (72 <? _); [done|]. destruct (31 <? _); [done|].
  intros [= <-]. by destruct (decide _).
Defined.

End Password.

(** ** The shapes of a session

    Every run of [sendUsingTLS] stops at one stage of the protocol; the
    relations below list, for each stage, the result and the lines the run
    adds to the log.  They are what the proofs take apart. *)

Module Runs.

Import Email.

Definition ok (ev : Event) : Entry := (ev, Done None).
Definition failed (ev : Event) (e : error) : Entry := (ev, Done (Some e)).

(** The recipients the relay accepted, in order. *)
Definition accepted (to : list string) : list Entry :=
  (λ a, ok (EvRcpt a)) <$> to.

Section Shapes.

Variables (c : Client) (addr : string) (auth : option Auth)
          (from : string) (to : list string) (msg : list Byte.byte).

Definition dial : Event :=
  EvDial "tcp" addr {| InsecureSkipVerify := false; ServerName := Host c |}.

(** The authentication block, when it does not fail. *)
Inductive Authenticated : list Entry → Prop :=
| auth_absent :
    auth = None → Authenticated []
| auth_not_offered a p :
    auth = Some a → Authenticated [(EvExtension "AUTH", Ext false p)]
| auth_accepted a p :
    auth = Some a →
    Authenticated [(EvExtension "AUTH", Ext true p); ok (EvAuth a)].

(** From the greeting to the last command, before the deferred
    closes. *)
Inductive Session : option error → list Entry → Prop :=
| auth_rejected a p e :
    auth = Some a →
    Session (Some (Errorf_w "auth failed: " e))
            [(EvExtension "AUTH", Ext true p); failed (EvAuth a) e]
| mail_rejected au e :
    Authenticated au →
    Session (Some (Errorf_w "mail from failed: " e))
            (au ++ [failed (EvMail from) e])
| rcpt_rejected au pre a post e :
    Authenticated au →
    to = pre ++ a :: post →
    Session (Some (Errorf_w ("rcpt to " +:+ a +:+ " failed: ") e))
            (au ++ ok (EvMail from) :: accepted pre ++ [failed (EvRcpt a) e])
| data_rejected au e :
    Authenticated au →
    Session (Some (Errorf_w "data command failed: " e))
            (au ++ ok (EvMail from) :: accepted to ++ [failed EvData e])
| write_failed au e :
    Authenticated au →
    Session (Some (Errorf_w "write message failed: " e))
            (au ++ ok (EvMail from) :: accepted to
                ++ [ok EvData; failed (EvWrite msg) e])
| close_failed au e :
    Authenticated au →
    Session (Some (Errorf_w "close writer failed: " e))
            (au ++ ok (EvMail from) :: accepted to
                ++ [ok EvData; ok (EvWrite msg); failed EvWriterClose e])
| quit_failed au e :
    Authenticated au →
    Session (Some (Errorf_w "quit failed: " e))
            (au ++ ok (EvMail from) :: accepted to
                ++ [ok EvData; ok (EvWrite msg); ok EvWriterClose;
                    failed EvQuit e])
| delivered au :
    Authenticated au →
    Session None
            (au ++ ok (EvMail from) :: accepted to
                ++ [ok EvData; ok (EvWrite msg); ok EvWriterClose;
                    ok EvQuit]).

(** A whole run: the dial, the greeting, the session, and the closes
    that were deferred by then. *)
Inductive TLSRun : option error → list Entry → Prop :=
| dial_failed e :
    TLSRun (Some (Errorf_w "tls dial: " e)) [failed dial e]
| greeting_failed e r1 :
    TLSRun (Some (Errorf_w "new smtp client: " e))
           [ok dial; failed (EvNewClient (Host c)) e;
            (EvConnClose, Done r1)]
| in_session r evs r1 r2 :
    Session r evs →
    TLSRun r (ok dial :: ok (EvNewClient (Host c)) :: evs
                ++ [(EvClientClose, Done r1); (EvConnClose, Done r2)]).

End Shapes.

(** The arguments [Send] computes before it chooses a transport. *)
Definition address (c : Client) : string :=
  JoinHostPort (Host c) (Itoa (Port c)).

Definition credentials (c : Client) : option Auth :=
  PlainAuth EmptyString (Username c) (Password c) (Host c).

Definition envelope (w : World) (c : Client) (to : list string)
    (subject body : string) : list Byte.byte :=
  list_byte_of_string (buildMessage (rangeOrder w) (sender c) to subject body).

(** The one-shot attempt of [Send] on a port other than 465. *)
Definition firstAttempt (w : World) (c : Client) (to : list string)
    (subject body : string) : Event :=
  EvSendMail (address c) (credentials c) (sender c) to
             (envelope w c to subject body).

(** The line the warning leaves in the log. *)
Definition warning (e : error) : Entry :=
  (EvWarn "smtp.SendMail failed, falling back to direct TLS"
          [("error", logError e)], Logged).

(** The five header lines of an envelope, in the order of the
    assignments of the source. *)
Definition headerLines (from : string) (to : list string) (subject : string)
  : list string :=
  [ "From: " +:+ from +:+ CRLF;
    "To: " +:+ Join to "," +:+ CRLF;
    "Subject: " +:+ subject +:+ CRLF;
    "MIME-Version: 1.0" +:+ CRLF;
    "Content-Type: text/html; charset=" +:+ String DQUOTE ("utf-8" +:+ String DQUOTE EmptyString) +:+ CRLF ].

(** The concatenation of a list of strings. *)
Definition concatAll (l : list string) : string := foldr String.append EmptyString l.

(** The entries of a log that are calls of [smtp.SendMail]. *)
Definition isSendMail (en : Entry) : bool :=
  match en.1 with
  | EvSendMail _ _ _ _ _ => true
  | _ => false
  end.

(** The entries that belong to the data phase: the DATA command and the
    writes of the message. *)
Definition isDataPhase (en : Entry) : bool :=
  match en.1 with
  | EvData | EvWrite _ | EvWriterClose => true
  | _ => false
  end.

(** The entries that release the session: the two deferred closes. *)
Definition isClose (en : Entry) : bool :=
  match en.1 with
  | EvClientClose | EvConnClose => true
  | _ => false
  end.

(** The entries of calls that did not return an error. *)
Definition succeeded (en : Entry) : bool :=
  match en.2 with
  | Done (Some _) => false
  | _ => true
  end.

(** The addresses declared to the relay, in the order of the log. *)
Definition rcptsOf (evs : list Entry) : list string :=
  omap (λ en, match en.1 with EvRcpt a => Some a | _ => None end) evs.


(** The context [sendUsingTLS] puts in front of the error of each call it
    checks (the nine [fmt.Errorf] of the function). *)
Definition stageContext (ev : Event) : string :=
  match ev with
  | EvDial _ _ _ => "tls dial: "
  | EvNewClient _ => "new smtp client: "
  | EvAuth _ => "auth failed: "
  | EvMail _ => "mail from failed: "
  | EvRcpt a => "rcpt to " +:+ a +:+ " failed: "
  | EvData => "data command failed: "
  | EvWrite _ => "write message failed: "
  | EvWriterClose => "close writer failed: "
  | EvQuit => "quit failed: "
  | _ => EmptyString
  end.

End Runs.

(** ** Relays for the examples

    Worlds with a fixed behaviour, on which the theorems are run. *)

Module Relays.

Import Email.

Definition sourceOrder : list string :=
  ["From"; "To"; "Subject"; "MIME-Version"; "Content-Type"].

(** The same table visited from its third entry on, wrapping around. *)
Definition otherOrder : list string :=
  ["Subject"; "MIME-Version"; "Content-Type"; "From"; "To"].

(** The world [w] on a call during which the runtime iterates in the
    order [ord]. *)
Definition withOrder (ord : list string) (w : World) : World :=
  {| rangeOrder := ord; reply := reply w; extension := extension w |}.

(** A relay whose answer depends on the call only. *)
Definition scripted (answer : Event → option error) : World :=
  {| rangeOrder := sourceOrder;
     reply := λ _ ev, answer ev;
     extension := λ _ _, (true, "PLAIN LOGIN") |}.

(** Rejects one mailbox, accepts everything else. *)
Definition rejecting (bad : string) : World :=
  scripted (λ ev,
    match ev with
    | EvRcpt a => if decide (a = bad)
                  then Some (errorString "550 mailbox unavailable")
                  else None
    | _ => None
    end).

(** The one-shot send fails (no STARTTLS); the TLS session works. *)
Definition implicitOnly : World :=
  scripted (λ ev,
    match ev with
    | EvSendMail _ _ _ _ _ => Some (errorString "EOF")
    | _ => None
    end).

(** The one-shot send fails and so does the TLS dial. *)
Definition unreachable : World :=
  scripted (λ ev,
    match ev with
    | EvSendMail _ _ _ _ _ => Some (errorString "connection refused")
    | EvDial _ _ _ => Some (errorString "i/o timeout")
    | _ => None
    end).

(** Takes the message and then drops the connection at QUIT. *)
Definition hangingUp : World :=
  scripted (λ ev,
    match ev with
    | EvQuit => Some (errorString "EOF")
    | _ => None
    end).

Definition submission : Client :=
  NewClient "smtp.example.org" 587 "noreply@example.org" "s3cret" EmptyString.

Definition smtps : Client :=
  NewClient "smtp.example.org" 465 "noreply@example.org" "s3cret"
            "Authentio <noreply@example.org>".

Definition three : list string :=
  ["ada@example.org"; "bob@example.org"; "eve@example.org"].

End Relays.

(** * Properties of the mail dispatcher *)

Import Email Runs.

Section TLSPath.

Variable w : World.

(** The recipient loop either stops at the first address the relay
    rejects, or goes on with every address accepted. *)
Lemma rcptLoop_run (to : list string) (k : M (option error)) (h : list Entry) :
  (∃ pre a post e,
      to = pre ++ a :: post ∧
      rcptLoop w to k h
      = (Some (Errorf_w ("rcpt to " +:+ a +:+ " failed: ") e),
         h ++ accepted pre ++ [failed (EvRcpt a) e]))
  ∨ rcptLoop w to k h = k (h ++ accepted to).
Proof.
  revert h. induction to as [|a rest IH]; intros h.
  - right. simpl. by rewrite app_nil_r.
  - simpl. unfold orReturn, call, mbind, M_bind.
    destruct (reply w h (EvRcpt a)) as [e|] eqn:Hr.
    + left. exists [], a, rest, e. split; [done|]. reflexivity.
    + destruct (IH (h ++ [(EvRcpt a, Done None)])) as [(pre & b & post & e & -> & Hrun)|Hrun].
      * left. exists (a :: pre), b, post, e. split; [done|].
        rewrite Hrun. by rewrite <- app_assoc.
      * right. rewrite Hrun. by rewrite <- app_assoc.
Qed.

Lemma orReturn_call (ev : Event) (prefix : string) (k : M (option error))
    (h : list Entry) :
  orReturn (call w ev) prefix k h
  = match reply w h ev with
    | Some e => (Some (Errorf_w prefix e), h ++ [failed ev e])
    | None => k (h ++ [ok ev])
    end.
Proof.
  unfold orReturn, call, mbind, M_bind, mret, M_ret.
  by destruct (reply w h ev).
Qed.

Lemma defer_call {A} (ev : Event) (body : M A) (h : list Entry) :
  defer (call w ev) body h
  = ((body h).1, (body h).2 ++ [(ev, Done (reply w (body h).2 ev))]).
Proof.
  unfold defer, call, mbind, M_bind, mret, M_ret.
  by destruct (body h).
Qed.

Section Session.

Variables (c : Client) (addr : string) (auth : option Auth)
          (from : string) (to : list string) (msg : list Byte.byte).

(** The data phase and the termination, after all recipients were
    accepted. *)
Lemma dataPhase_run (au : list Entry) (h : list Entry) :
  Authenticated auth au →
  ∃ r evs,
    orReturn (call w EvData) "data command failed: " (
    orReturn (call w (EvWrite msg)) "write message failed: " (
    orReturn (call w EvWriterClose) "close writer failed: " (
    orReturn (call w EvQuit) "quit failed: " (
    mret None))))
      (h ++ au ++ ok (EvMail from) :: accepted to)
    = (r, h ++ evs) ∧ Session auth from to msg r evs.
Proof.
  intros Hau. rewrite orReturn_call.
  destruct (reply w _ EvData) as [e|].
  { eexists _, _. split; [|by apply (data_rejected _ _ _ _ au e)].
    by rewrite <- !app_assoc. }
  rewrite orReturn_call.
  destruct (reply w _ (EvWrite msg)) as [e|].
  { eexists _, _. split; [|by apply (write_failed _ _ _ _ au e)].
    by rewrite <- !app_assoc. }
  rewrite orReturn_call.
  destruct (reply w _ EvWriterClose) as [e|].
  { eexists _, _. split; [|by apply (close_failed _ _ _ _ au e)].
    by rewrite <- !app_assoc. }
  rewrite orReturn_call.
  destruct (reply w _ EvQuit) as [e|].
  { eexists _, _. split; [|by apply (quit_failed _ _ _ _ au e)].
    by rewrite <- !app_assoc. }
  eexists _, _. split; [|by apply (delivered _ _ _ _ au)].
  unfold mret, M_ret. by rewrite <- !app_assoc.
Qed.

(** From the sender declaration on, once authentication is behind. *)
Lemma envelope_run (au : list Entry) (h : list Entry) :
  Authenticated auth au →
  ∃ r evs,
    orReturn (call w (EvMail from)) "mail from failed: " (
    rcptLoop w to (
    orReturn (call w EvData) "data command failed: " (
    orReturn (call w (EvWrite msg)) "write message failed: " (
    orReturn (call w EvWriterClose) "close writer failed: " (
    orReturn (call w EvQuit) "quit failed: " (
    mret None))))))
      (h ++ au)
    = (r, h ++ evs) ∧ Session auth from to msg r evs.
Proof.
  intros Hau. rewrite orReturn_call.
  destruct (reply w _ (EvMail from)) as [e|].
  { eexists _, _. split; [|by apply (mail_rejected _ _ _ _ au e)].
    by rewrite <- !app_assoc. }
  match goal with |- context [rcptLoop w to ?k ?h0] =>
    destruct (rcptLoop_run to k h0) as [(pre & a & post & e & Hto & ->)| ->]
  end.
  - eexists _, _. split; [|by apply (rcpt_rejected _ _ _ _ au pre a post e)].
    by rewrite <- !app_assoc.
  - destruct (dataPhase_run au h Hau) as (r & evs & Hrun & Hs).
    exists r, evs. split; [|done].
    rewrite <- Hrun. by rewrite <- !app_assoc.
Qed.

(** The session: the authentication block and what follows it. *)
Lemma session_run (h : list Entry) :
  ∃ r evs,
    authBlock w auth (
    orReturn (call w (EvMail from)) "mail from failed: " (
    rcptLoop w to (
    orReturn (call w EvData) "data command failed: " (
    orReturn (call w (EvWrite msg)) "write message failed: " (
    orReturn (call w EvWriterClose) "close writer failed: " (
    orReturn (call w EvQuit) "quit failed: " (
    mret None)))))))
      h
    = (r, h ++ evs) ∧ Session auth from to msg r evs.
Proof.
  unfold authBlock. destruct auth as [a|] eqn:Hauth.
  - unfold Extension, mbind, M_bind at 1.
    destruct (extension w h "AUTH") as [[|] p] eqn:Hext; simpl.
    + rewrite orReturn_call.
      destruct (reply w _ (EvAuth a)) as [e|].
      { eexists _, _. split; [|by apply (auth_rejected _ _ _ _ a p e)].
        by rewrite <- !app_assoc. }
      destruct (envelope_run [(EvExtension "AUTH", Ext true p); ok (EvAuth a)] h)
        as (r & evs & Hrun & Hs); [by eapply auth_accepted|].
      exists r, evs. split; [|by rewrite <- Hauth].
      rewrite <- Hrun. by rewrite <- !app_assoc.
    + destruct (envelope_run [(EvExtension "AUTH", Ext false p)] h)
        as (r & evs & Hrun & Hs); [by eapply auth_not_offered|].
      exists r, evs. split; [|by rewrite <- Hauth]. by rewrite <- Hrun.
  - destruct (envelope_run [] h) as (r & evs & Hrun & Hs);
      [by apply auth_absent|].
    exists r, evs. split; [|by rewrite <- Hauth].
    rewrite <- Hrun. by rewrite app_nil_r.
Qed.

(** Every run of [sendUsingTLS] extends the log by one of the shapes of
    [TLSRun] and returns the result that goes with it. *)
Lemma sendUsingTLS_run (h : list Entry) :
  ∃ r evs,
    sendUsingTLS w c addr auth from to msg h = (r, h ++ evs)
    ∧ TLSRun c addr auth from to msg r evs.
Proof.
  unfold sendUsingTLS. rewrite orReturn_call.
  destruct (reply w h _) as [e|].
  { eexists _, _. split; [done|]. apply dial_failed. }
  rewrite defer_call, orReturn_call.
  destruct (reply w (h ++ _) (EvNewClient _)) as [e|]; simpl.
  { eexists _, _. split; [|by apply greeting_failed].
    by rewrite <- !app_assoc. }
  rewrite defer_call.
  destruct (session_run ((h ++ [ok (dial c addr)]) ++ [ok (EvNewClient (Host c))]))
    as (r & evs & Hrun & Hs).
  unfold dial, ok in Hrun. unfold ok. rewrite Hrun. simpl.
  eexists r, _. split.
  - rewrite <- !app_assoc. simpl. reflexivity.
  - by apply in_session.
Qed.

End Session.

End TLSPath.

(** Membership in the parts of a session. *)

Lemma elem_of_accepted (en : Entry) (to : list string) :
  en ∈ accepted to ↔ ∃ a, en = ok (EvRcpt a) ∧ a ∈ to.
Proof. unfold accepted. rewrite list_elem_of_fmap. naive_solver. Qed.

Lemma elem_of_Authenticated (auth : option Auth) (au : list Entry) (en : Entry) :
  Authenticated auth au → en ∈ au →
  (∃ b p, en = (EvExtension "AUTH", Ext b p))
  ∨ (∃ a, auth = Some a ∧ en = ok (EvAuth a)).
Proof.
  intros Hau Hen. destruct Hau; set_unfold; naive_solver.
Qed.

(** The result of a run determines the new part of the log. *)
Lemma run_new_entries {A} (r r' : A) (h evs evs' : list Entry) :
  (r, h ++ evs) = (r', h ++ evs') → r = r' ∧ evs = evs'.
Proof. intros [= -> Happ]. by apply app_inv_head in Happ. Qed.

Ltac session_cases H :=
  let r := fresh "r" in
  let evs := fresh "evs" in
  let Hrun := fresh "Hrun" in
  let Hshape := fresh "Hshape" in
  match type of H with
  | sendUsingTLS ?w ?c ?addr ?auth ?from ?to ?msg ?h = _ =>
      destruct (sendUsingTLS_run w c addr auth from to msg h)
        as (r & evs & Hrun & Hshape);
      rewrite Hrun in H; apply run_new_entries in H as [-> ->];
      clear Hrun
  end.

(** What the entries of a TLS run can be. *)

Lemma TLSRun_no_SendMail c addr auth from to msg r evs :
  TLSRun c addr auth from to msg r evs → ∀ en, en ∈ evs → isSendMail en = false.
Proof.
  intros Hrun en Hen. pose proof (elem_of_Authenticated auth) as HA.
  destruct Hrun as [e0|e0 r1|r evs r1 r2 Hs]; [| |destruct Hs].
  all: repeat (rewrite ?elem_of_cons, ?elem_of_app, ?elem_of_accepted,
                 ?elem_of_nil in Hen).
  all: unfold failed, ok in *; naive_solver.
Qed.

Lemma TLSRun_starts_with_dial c addr auth from to msg r evs :
  TLSRun c addr auth from to msg r evs →
  ∃ rd rest, evs = (dial c addr, Done rd) :: rest.
Proof. intros []; by eexists _, _. Qed.

(** An error returned by the TLS path wraps, under the context of its
    stage, an error that one of the calls of this run returned. *)
Lemma TLSRun_error_provenance c addr auth from to msg err evs :
  TLSRun c addr auth from to msg (Some err) evs →
  ∃ prefix ev e, err = Errorf_w prefix e ∧ failed ev e ∈ evs.
Proof.
  intros Hrun. inversion Hrun as [e0|e0 r1|r evs0 r1 r2 Hs]; subst.
  - exists "tls dial: ", (dial c addr), e0. split; [done|]. by left.
  - exists "new smtp client: ", (EvNewClient (Host c)), e0.
    split; [done|]. right. by left.
  - inversion Hs; subst; eexists _, _, _; (split; [reflexivity|]);
      do 2 right; repeat first [rewrite elem_of_app | rewrite elem_of_cons];
      unfold failed; eauto 20.
Qed.

(** *** The transports of [Send] *)

Lemma Send_unfold (w : World) (c : Client) (to : list string)
    (subject body : string) (h : list Entry) :
  to ≠ [] →
  Send w c to subject body h
  = if decide (Port c = 465)
    then sendUsingTLS w c (address c) (credentials c) (sender c) to
           (envelope w c to subject body) h
    else match reply w h (firstAttempt w c to subject body) with
         | Some e =>
             sendUsingTLS w c (address c) (credentials c) (sender c) to
               (envelope w c to subject body)
               (h ++ [failed (firstAttempt w c to subject body) e; warning e])
         | None => (None, h ++ [ok (firstAttempt w c to subject body)])
         end.
Proof.
  intros Hto. unfold Send.
  destruct (decide (length to = 0%nat)) as [Hlen|_].
  { by destruct to. }
  destruct (decide (Port c = 465)); [done|].
  unfold call, Warn, mbind, M_bind, mret, M_ret, firstAttempt, envelope,
    address, credentials, failed, ok, warning.
  destruct (reply w h _); [|done].
  by rewrite <- app_assoc.
Qed.

(** C2: in the implicit-TLS path, when the relay rejects a recipient, the
    function returns an error that names this recipient and wraps the
    relay's answer, the recipient is one of the list, the run issues no
    DATA command and writes no message bytes, and no later recipient is
    declared: the log of the run holds no entry of the data phase. *)
Theorem sendUsingTLS_recipient_rejected
    (w : World) (c : Client) (addr : string) (auth : option Auth)
    (from : string) (to : list string) (msg : list Byte.byte)
    (h evs : list Entry) (r : option error) (a : string) (e : error) :
  sendUsingTLS w c addr auth from to msg h = (r, h ++ evs) →
  failed (EvRcpt a) e ∈ evs →
  r = Some (Errorf_w ("rcpt to " +:+ a +:+ " failed: ") e)
  ∧ Error (Errorf_w ("rcpt to " +:+ a +:+ " failed: ") e)
    = ("rcpt to " +:+ a +:+ " failed: ") +:+ Error e
  ∧ a ∈ to
  ∧ (∀ en, en ∈ evs → isDataPhase en = false).
Proof.
  intros Hrun Hrej. session_cases Hrun.
  destruct Hshape as [e0|e0 r1|r evs r1 r2 Hs].
  - set_unfold. naive_solver.
  - set_unfold. naive_solver.
  - destruct Hs as [b p e0 Hb|au e0 Hau|au pre b post e0 Hau Hto|au e0 Hau
                   |au e0 Hau|au e0 Hau|au e0 Hau|au Hau].
    all: repeat (rewrite ?elem_of_cons, ?elem_of_app, ?elem_of_accepted,
                   ?elem_of_nil in Hrej).
    all: pose proof (elem_of_Authenticated auth) as HA.
    all: try (exfalso; unfold failed, ok in *; naive_solver).
    assert (b = a ∧ e0 = e) as [-> ->].
    { unfold failed, ok in *. naive_solver. }
    split; [done|]. split; [done|]. split.
    { rewrite Hto. set_solver. }
    intros en Hen.
    repeat (rewrite ?elem_of_cons, ?elem_of_app, ?elem_of_accepted,
              ?elem_of_nil in Hen).
    unfold failed, ok in *. naive_solver.
Qed.

(** The second of three recipients is rejected by a relay that works
    otherwise. *)
Lemma sendUsingTLS_recipient_rejected_witness :
  let run :=
    sendUsingTLS (Relays.rejecting "bob@example.org") Relays.smtps
      (address Relays.smtps) (credentials Relays.smtps) (sender Relays.smtps)
      Relays.three [] [] in
  run.1 = Some (Errorf_w "rcpt to bob@example.org failed: "
                  (errorString "550 mailbox unavailable"))
  ∧ "bob@example.org" ∈ Relays.three
  ∧ (∀ en, en ∈ run.2 → isDataPhase en = false).
Proof.
  intros run.
  destruct (sendUsingTLS_recipient_rejected
              (Relays.rejecting "bob@example.org") Relays.smtps
              (address Relays.smtps) (credentials Relays.smtps)
              (sender Relays.smtps) Relays.three [] [] run.2 run.1
              "bob@example.org" (errorString "550 mailbox unavailable"))
    as (Hr & _ & Hin & Hdata).
  - vm_compute. reflexivity.
  - compute_done.
  - exact (conj Hr (conj Hin Hdata)).
Defined.

(** After a failed one-shot attempt the run of [Send] is the warning and
    then a run of the implicit-TLS path on the arguments of the attempt. *)
Lemma Send_after_failed_attempt
    (w : World) (c : Client) (to : list string) (subject body : string)
    (h evs : list Entry) (r : option error)
    (addr : string) (a : option Auth) (from : string) (to' : list string)
    (msg : list Byte.byte) (e : error) :
  Send w c to subject body h = (r, h ++ evs) →
  failed (EvSendMail addr a from to' msg) e ∈ evs →
  Port c ≠ 465
  ∧ EvSendMail addr a from to' msg = firstAttempt w c to subject body
  ∧ ∃ tls,
      evs = failed (EvSendMail addr a from to' msg) e :: warning e :: tls
      ∧ sendUsingTLS w c addr a from to' msg
          (h ++ [failed (EvSendMail addr a from to' msg) e; warning e])
        = (r, h ++ evs)
      ∧ TLSRun c addr a from to' msg r tls.
Proof.
  intros Hrun Hfail.
  destruct (decide (to = [])) as [->|Hto].
  { unfold Send in Hrun. simpl in Hrun. unfold mret, M_ret in Hrun.
    rewrite <- (app_nil_r h) in Hrun at 1.
    apply run_new_entries in Hrun as [_ <-]. by apply elem_of_nil in Hfail. }
  rewrite Send_unfold in Hrun by done.
  destruct (decide (Port c = 465)) as [Hport|Hport].
  { session_cases Hrun.
    by pose proof (TLSRun_no_SendMail _ _ _ _ _ _ _ _ Hshape _ Hfail). }
  destruct (reply w h _) as [e1|] eqn:Hreply.
  - destruct (sendUsingTLS_run w c (address c) (credentials c) (sender c) to
                (envelope w c to subject body)
                (h ++ [failed (firstAttempt w c to subject body) e1; warning e1]))
      as (r0 & tls & Htls & Hshape).
    rewrite Htls, <- app_assoc in Hrun.
    apply run_new_entries in Hrun as [-> <-].
    simpl in Hfail. rewrite !elem_of_cons in Hfail.
    destruct Hfail as [Heq|[Heq|Hin]].
    + injection Heq as -> -> -> -> -> ->.
      do 2 (split; [done|]). exists tls. split; [done|]. split; [|done].
      rewrite <- app_assoc in Htls. exact Htls.
    + discriminate Heq.
    + by pose proof (TLSRun_no_SendMail _ _ _ _ _ _ _ _ Hshape _ Hin).
  - apply run_new_entries in Hrun as [_ <-].
    apply list_elem_of_singleton in Hfail. discriminate Hfail.
Qed.

(** C3: whenever the one-shot attempt of [Send] fails, whatever the error,
    the log goes on with the warning and then with a run of the
    implicit-TLS path that is given the very arguments of the failed
    attempt: the same address, credentials, sender, recipient list and
    envelope bytes.  The run starts by dialling that address and its
    result is the result of [Send]. *)
Theorem Send_fallback_same_arguments
    (w : World) (c : Client) (to : list string) (subject body : string)
    (h evs : list Entry) (r : option error)
    (addr : string) (a : option Auth) (from : string) (to' : list string)
    (msg : list Byte.byte) (e : error) :
  Send w c to subject body h = (r, h ++ evs) →
  failed (EvSendMail addr a from to' msg) e ∈ evs →
  Port c ≠ 465
  ∧ to' = to
  ∧ addr = address c
  ∧ msg = envelope w c to subject body
  ∧ ∃ rd rest,
      evs = failed (EvSendMail addr a from to' msg) e :: warning e
              :: (dial c addr, Done rd) :: rest
      ∧ sendUsingTLS w c addr a from to' msg
          (h ++ [failed (EvSendMail addr a from to' msg) e; warning e])
        = (r, h ++ evs).
Proof.
  intros Hrun Hfail.
  destruct (Send_after_failed_attempt _ _ _ _ _ _ _ _ _ _ _ _ _ _ Hrun Hfail)
    as (Hport & Hfirst & tls & -> & Htls & Hshape).
  injection Hfirst as -> _ _ -> ->.
  do 4 (split; [done|]).
  destruct (TLSRun_starts_with_dial _ _ _ _ _ _ _ _ Hshape) as (rd & rest & ->).
  by exists rd, rest.
Qed.

(** A relay that only speaks implicit TLS, reached on port 587. *)
Lemma Send_fallback_same_arguments_witness :
  let run :=
    Send Relays.implicitOnly Relays.submission Relays.three "Hi" "<p>x</p>" [] in
  let msg :=
    envelope Relays.implicitOnly Relays.submission Relays.three "Hi" "<p>x</p>" in
  let attempt :=
    EvSendMail "smtp.example.org:587" (credentials Relays.submission)
      "noreply@example.org" Relays.three msg in
  ∃ rd rest,
    run.2 = failed attempt (errorString "EOF") :: warning (errorString "EOF")
              :: (dial Relays.submission "smtp.example.org:587", Done rd) :: rest
    ∧ sendUsingTLS Relays.implicitOnly Relays.submission "smtp.example.org:587"
        (credentials Relays.submission) "noreply@example.org" Relays.three msg
        [failed attempt (errorString "EOF"); warning (errorString "EOF")]
      = (run.1, run.2).
Proof.
  intros run msg attempt.
  destruct (Send_fallback_same_arguments Relays.implicitOnly Relays.submission
              Relays.three "Hi" "<p>x</p>" [] run.2 run.1
              "smtp.example.org:587" (credentials Relays.submission)
              "noreply@example.org" Relays.three msg (errorString "EOF"))
    as (_ & _ & _ & _ & rd & rest & Hevs & Htls).
  - vm_compute. reflexivity.
  - compute_done.
  - exists rd, rest. split; [exact Hevs|exact Htls].
Defined.

(** C4: when the one-shot attempt fails and [Send] fails, the value [Send]
    returns is exactly the value the implicit-TLS fallback returned: an
    error that wraps, under the context of a stage of the TLS path, an
    error that a call of the fallback session returned.  The error of
    the first attempt goes to the log, in the warning that comes right
    after the attempt. *)
Theorem Send_returns_fallback_error
    (w : World) (c : Client) (to : list string) (subject body : string)
    (h evs : list Entry) (err : error)
    (addr : string) (a : option Auth) (from : string) (to' : list string)
    (msg : list Byte.byte) (e1 : error) :
  Send w c to subject body h = (Some err, h ++ evs) →
  failed (EvSendMail addr a from to' msg) e1 ∈ evs →
  ∃ tls,
    evs = failed (EvSendMail addr a from to' msg) e1 :: warning e1 :: tls
    ∧ sendUsingTLS w c addr a from to' msg
        (h ++ [failed (EvSendMail addr a from to' msg) e1; warning e1])
      = (Some err, h ++ evs)
    ∧ ∃ prefix ev e2, err = Errorf_w prefix e2 ∧ failed ev e2 ∈ tls.
Proof.
  intros Hrun Hfail.
  destruct (Send_after_failed_attempt _ _ _ _ _ _ _ _ _ _ _ _ _ _ Hrun Hfail)
    as (_ & _ & tls & -> & Htls & Hshape).
  exists tls. do 2 (split; [done|]).
  by eapply TLSRun_error_provenance.
Qed.

(** Neither port 587 nor the TLS dial gets through. *)
Lemma Send_returns_fallback_error_witness :
  let run :=
    Send Relays.unreachable Relays.submission Relays.three "Hi" "<p>x</p>" [] in
  let attempt :=
    firstAttempt Relays.unreachable Relays.submission Relays.three "Hi" "<p>x</p>" in
  run.1 = Some (Errorf_w "tls dial: " (errorString "i/o timeout"))
  ∧ ∃ tls,
      run.2 = failed attempt (errorString "connection refused")
                :: warning (errorString "connection refused") :: tls
      ∧ ∃ prefix ev e2,
          Errorf_w "tls dial: " (errorString "i/o timeout") = Errorf_w prefix e2
          ∧ failed ev e2 ∈ tls.
Proof.
  intros run attempt. split; [vm_compute; reflexivity|].
  destruct (Send_returns_fallback_error Relays.unreachable Relays.submission
              Relays.three "Hi" "<p>x</p>" [] run.2
              (Errorf_w "tls dial: " (errorString "i/o timeout"))
              (address Relays.submission) (credentials Relays.submission)
              (sender Relays.submission) Relays.three
              (envelope Relays.unreachable Relays.submission Relays.three
                 "Hi" "<p>x</p>")
              (errorString "connection refused"))
    as (tls & Hevs & _ & Hprov).
  - vm_compute. reflexivity.
  - compute_done.
  - exists tls. split; [exact Hevs|exact Hprov].
Defined.

(** With a recipient, the first thing [Send] does is a call: the TLS dial
    on port 465, the one-shot attempt on any other port. *)
Lemma Send_first_entry
    (w : World) (c : Client) (to : list string) (subject body : string)
    (h evs : list Entry) (r : option error) :
  to ≠ [] →
  Send w c to subject body h = (r, h ++ evs) →
  ∃ en rest,
    evs = en :: rest
    ∧ en.1 = (if decide (Port c = 465) then dial c (address c)
              else firstAttempt w c to subject body).
Proof.
  intros Hto Hrun. rewrite Send_unfold in Hrun by done.
  destruct (decide (Port c = 465)) as [Hport|Hport].
  - session_cases Hrun.
    destruct (TLSRun_starts_with_dial _ _ _ _ _ _ _ _ Hshape) as (rd & rest & ->).
    by eexists _, _.
  - destruct (reply w h _) as [e1|] eqn:Hreply.
    + destruct (sendUsingTLS_run w c (address c) (credentials c) (sender c) to
                  (envelope w c to subject body)
                  (h ++ [failed (firstAttempt w c to subject body) e1; warning e1]))
        as (r0 & tls & Htls & _).
      rewrite Htls, <- app_assoc in Hrun.
      apply run_new_entries in Hrun as [_ <-]. by eexists _, _.
    + apply run_new_entries in Hrun as [_ <-]. by eexists _, _.
Qed.

(** C5: for a non-empty recipient list, on port 465 the run of [Send] is a
    run of the implicit-TLS path: it starts with the TLS dial and holds no
    call of the one-shot routine; on any other port the first thing [Send]
    does is the one-shot attempt. *)
Theorem Send_transport_selection
    (w : World) (c : Client) (to : list string) (subject body : string)
    (h evs : list Entry) (r : option error) :
  to ≠ [] →
  Send w c to subject body h = (r, h ++ evs) →
  (Port c = 465 →
     sendUsingTLS w c (address c) (credentials c) (sender c) to
       (envelope w c to subject body) h = (r, h ++ evs)
     ∧ (∃ rd rest, evs = (dial c (address c), Done rd) :: rest)
     ∧ (∀ en, en ∈ evs → isSendMail en = false))
  ∧ (Port c ≠ 465 →
     ∃ r1 rest, evs = (firstAttempt w c to subject body, Done r1) :: rest).
Proof.
  intros Hto Hrun. rewrite Send_unfold in Hrun by done.
  destruct (decide (Port c = 465)) as [Hport|Hport].
  - split; [intros _|done]. split; [done|]. session_cases Hrun.
    split; [by eapply TLSRun_starts_with_dial|by eapply TLSRun_no_SendMail].
  - split; [done|intros _].
    destruct (reply w h _) as [e1|] eqn:Hreply.
    + destruct (sendUsingTLS_run w c (address c) (credentials c) (sender c) to
                  (envelope w c to subject body)
                  (h ++ [failed (firstAttempt w c to subject body) e1; warning e1]))
        as (r0 & tls & Htls & _).
      rewrite Htls, <- app_assoc in Hrun.
      apply run_new_entries in Hrun as [_ <-]. by eexists _, _.
    + apply run_new_entries in Hrun as [_ <-]. by eexists _, _.
Qed.

(** The same message on port 465 and on port 587. *)
Lemma Send_transport_selection_witness :
  let run465 :=
    Send Relays.implicitOnly Relays.smtps Relays.three "Hi" "<p>x</p>" [] in
  let run587 :=
    Send Relays.implicitOnly Relays.submission Relays.three "Hi" "<p>x</p>" [] in
  ((∃ rd rest, run465.2 = (dial Relays.smtps (address Relays.smtps), Done rd) :: rest)
   ∧ ∀ en, en ∈ run465.2 → isSendMail en = false)
  ∧ ∃ r1 rest,
      run587.2 = (firstAttempt Relays.implicitOnly Relays.submission Relays.three
                    "Hi" "<p>x</p>", Done r1) :: rest.
Proof.
  intros run465 run587. split.
  - destruct (Send_transport_selection Relays.implicitOnly Relays.smtps
                Relays.three "Hi" "<p>x</p>" [] run465.2 run465.1)
      as [H465 _]; [done|vm_compute; reflexivity|].
    destruct H465 as (_ & Hdial & Hno); [reflexivity|]. by split.
  - destruct (Send_transport_selection Relays.implicitOnly Relays.submission
                Relays.three "Hi" "<p>x</p>" [] run587.2 run587.1)
      as [_ H587]; [done|vm_compute; reflexivity|].
    apply H587. compute_done.
Defined.

(** C6: called with no recipient, [Send] returns the error
    "no recipients specified" and leaves the log as it was: no call to the
    network, to either transport or to the logger is made.  It is the
    only case in which [Send] returns without a call: with a recipient
    the log grows. *)
Theorem Send_no_recipients
    (w : World) (c : Client) (subject body : string) (h : list Entry) :
  Send w c [] subject body h
  = (Some (errorString "no recipients specified"), h)
  ∧ Error (errorString "no recipients specified") = "no recipients specified"
  ∧ (∀ to r, Send w c to subject body h = (r, h) → to = []).
Proof.
  split; [reflexivity|]. split; [reflexivity|].
  intros to r Hrun. destruct (decide (to = [])) as [|Hto]; [done|].
  exfalso. rewrite <- (app_nil_r h) in Hrun at 2.
  destruct (Send_first_entry w c to subject body h [] r Hto Hrun)
    as (en & rest & Hnil & _).
  discriminate Hnil.
Qed.

(** The empty list on the submission port: the error, and an untouched
    log. *)
Lemma Send_no_recipients_witness :
  Send Relays.implicitOnly Relays.submission [] "Hi" "<p>x</p>" []
  = (Some (errorString "no recipients specified"), [])
  ∧ ([] : list string) = [].
Proof.
  destruct (Send_no_recipients Relays.implicitOnly Relays.submission
              "Hi" "<p>x</p>" []) as (Hrun & _ & Honly).
  split; [exact Hrun|].
  symmetry. apply (Honly [] (Some (errorString "no recipients specified"))).
  reflexivity.
Defined.

(** C7: in the implicit-TLS path, a QUIT that fails comes after the DATA
    command, the write of the whole message and the close of the writer
    all succeeded, and is followed by the two closes only: nothing is sent
    to the relay that would take the message back.  The error returned is
    the relay's answer under the context "quit failed: ", and the text of
    an error of this function starts with these words only when QUIT
    failed, so the caller can tell this failure from a failed delivery. *)
Theorem sendUsingTLS_quit_failed
    (w : World) (c : Client) (addr : string) (auth : option Auth)
    (from : string) (to : list string) (msg : list Byte.byte)
    (h evs : list Entry) (r : option error) :
  sendUsingTLS w c addr auth from to msg h = (r, h ++ evs) →
  (∀ e, failed EvQuit e ∈ evs →
     r = Some (Errorf_w "quit failed: " e)
     ∧ ∃ before r1 r2,
         evs = before ++ [ok EvData; ok (EvWrite msg); ok EvWriterClose;
                          failed EvQuit e;
                          (EvClientClose, Done r1); (EvConnClose, Done r2)])
  ∧ (∀ err, r = Some err →
     HasPrefix (Error err) "quit failed: " = true →
     ∃ e, failed EvQuit e ∈ evs).
Proof.
  intros Hrun. session_cases Hrun.
  pose proof (elem_of_Authenticated auth) as HA.
  destruct Hshape as [e0|e0 r1|r evs r1 r2 Hs]; [| |destruct Hs]; split.
  all: try (intros err [= <-] Hpre; discriminate Hpre).
  all: try (intros eq Hq; exfalso;
            repeat first [rewrite elem_of_app in Hq | rewrite elem_of_cons in Hq
                         | rewrite elem_of_accepted in Hq
                         | rewrite elem_of_nil in Hq];
            unfold failed, ok in *; naive_solver).
  - intros eq Hq.
    assert (eq = e) as ->.
    { repeat first [rewrite elem_of_app in Hq | rewrite elem_of_cons in Hq
                   | rewrite elem_of_accepted in Hq | rewrite elem_of_nil in Hq].
      unfold failed, ok in *. naive_solver. }
    split; [done|].
    exists (ok (dial c addr) :: ok (EvNewClient (Host c))
              :: au ++ ok (EvMail from) :: accepted to), r1, r2.
    simpl. by repeat (rewrite <- app_assoc; simpl).
  - intros err _ _. exists e. do 2 right.
    repeat first [rewrite elem_of_app | rewrite elem_of_cons]. naive_solver.
Qed.

(** The relay takes the message and drops the connection at QUIT. *)
Lemma sendUsingTLS_quit_failed_witness :
  let msg := envelope Relays.hangingUp Relays.smtps Relays.three "Hi" "<p>x</p>" in
  let run :=
    sendUsingTLS Relays.hangingUp Relays.smtps (address Relays.smtps)
      (credentials Relays.smtps) (sender Relays.smtps) Relays.three msg [] in
  run.1 = Some (Errorf_w "quit failed: " (errorString "EOF"))
  ∧ ∃ before r1 r2,
      run.2 = before ++ [ok EvData; ok (EvWrite msg); ok EvWriterClose;
                         failed EvQuit (errorString "EOF");
                         (EvClientClose, Done r1); (EvConnClose, Done r2)].
Proof.
  intros msg run.
  destruct (sendUsingTLS_quit_failed Relays.hangingUp Relays.smtps
              (address Relays.smtps) (credentials Relays.smtps)
              (sender Relays.smtps) Relays.three msg [] run.2 run.1)
    as [Hquit _]; [vm_compute; reflexivity|].
  apply Hquit. compute_done.
Defined.

(** *** The envelope *)

Lemma append_assoc (s1 s2 s3 : string) : (s1 +:+ s2) +:+ s3 = s1 +:+ s2 +:+ s3.
Proof.
  induction s1 as [|a s1 IH]; [done|].
  change ((String a s1 +:+ s2) +:+ s3) with (String a ((s1 +:+ s2) +:+ s3)).
  by rewrite IH.
Qed.

Lemma append_nil_r (s : string) : s +:+ EmptyString = s.
Proof.
  induction s as [|a s IH]; [done|].
  change (String a s +:+ EmptyString) with (String a (s +:+ EmptyString)). by rewrite IH.
Qed.

(** The header loop appends the lines to the builder, in the order of the
    iteration. *)
Lemma writeHeaders_concat (kvs : list (string * string)) (msg : string) :
  writeHeaders kvs msg = msg +:+ concatAll (headerLine <$> kvs).
Proof.
  revert msg. induction kvs as [|kv kvs IH]; intros msg; simpl.
  - by rewrite append_nil_r.
  - by rewrite IH, append_assoc.
Qed.

(** The table always holds the same five keys. *)
Lemma headers_keys (from : string) (to : list string) (subject : string) :
  (map_to_list (headers from to subject)).*1 ≡ₚ Relays.sourceOrder.
Proof. compute_done. Qed.

(** Visited in an order the runtime may choose, the table yields the five
    header lines, in some order. *)
Lemma rangeMap_lines (ord : list string) (from : string) (to : list string)
    (subject : string) :
  RangeOrder (headers from to subject) ord →
  headerLine <$> rangeMap ord (headers from to subject)
  ≡ₚ headerLines from to subject.
Proof.
  unfold RangeOrder. rewrite headers_keys. intros Hord.
  unfold rangeMap. rewrite Hord. reflexivity.
Qed.

(** C1, as the code has it: for a fixed configuration and a fixed input,
    every envelope [Send] can build is the five header lines (From, To,
    Subject, MIME-Version, Content-Type), each once, then the blank line
    and the body.  The order of the five lines is the order in which the
    runtime iterates the header table: two builds agree up to the order of
    these lines, and are byte-identical when the runtime iterates in the
    same order. *)
Theorem envelope_up_to_header_order
    (c : Client) (to : list string) (subject body : string) (w1 w2 : World) :
  RangeOrder (headers (sender c) to subject) (rangeOrder w1) →
  RangeOrder (headers (sender c) to subject) (rangeOrder w2) →
  ∃ lines1 lines2,
    lines1 ≡ₚ headerLines (sender c) to subject
    ∧ lines2 ≡ₚ headerLines (sender c) to subject
    ∧ envelope w1 c to subject body
      = list_byte_of_string (concatAll lines1 +:+ CRLF +:+ body)
    ∧ envelope w2 c to subject body
      = list_byte_of_string (concatAll lines2 +:+ CRLF +:+ body)
    ∧ (rangeOrder w1 = rangeOrder w2 →
       envelope w1 c to subject body = envelope w2 c to subject body).
Proof.
  intros H1 H2.
  exists (headerLine <$> rangeMap (rangeOrder w1) (headers (sender c) to subject)),
         (headerLine <$> rangeMap (rangeOrder w2) (headers (sender c) to subject)).
  split; [by apply rangeMap_lines|]. split; [by apply rangeMap_lines|].
  unfold envelope, buildMessage.
  rewrite !writeHeaders_concat, !append_assoc.
  split; [done|]. split; [done|]. by intros ->.
Qed.

(** The runtime visits the table once in the order of the assignments and
    once from the third entry on. *)
Lemma envelope_up_to_header_order_witness :
  ∃ lines1 lines2,
    lines1 ≡ₚ headerLines (sender Relays.submission) Relays.three "Hi"
    ∧ lines2 ≡ₚ headerLines (sender Relays.submission) Relays.three "Hi"
    ∧ envelope Relays.implicitOnly Relays.submission Relays.three "Hi" "<p>x</p>"
      = list_byte_of_string (concatAll lines1 +:+ CRLF +:+ "<p>x</p>")
    ∧ envelope (Relays.withOrder Relays.otherOrder Relays.implicitOnly)
        Relays.submission Relays.three "Hi" "<p>x</p>"
      = list_byte_of_string (concatAll lines2 +:+ CRLF +:+ "<p>x</p>")
    ∧ (rangeOrder Relays.implicitOnly
       = rangeOrder (Relays.withOrder Relays.otherOrder Relays.implicitOnly) →
       envelope Relays.implicitOnly Relays.submission Relays.three "Hi" "<p>x</p>"
       = envelope (Relays.withOrder Relays.otherOrder Relays.implicitOnly)
           Relays.submission Relays.three "Hi" "<p>x</p>").
Proof.
  apply (envelope_up_to_header_order Relays.submission Relays.three "Hi"
           "<p>x</p>" Relays.implicitOnly
           (Relays.withOrder Relays.otherOrder Relays.implicitOnly)).
  - unfold RangeOrder. compute_done.
  - unfold RangeOrder. compute_done.
Defined.

(** The envelope is not a function of the configuration and the message
    alone: on one configuration and one message, two orders of iteration
    that the runtime may both choose give envelopes that differ. *)
Lemma envelope_not_byte_identical :
  RangeOrder (headers (sender Relays.submission) Relays.three "Hi")
             (rangeOrder Relays.implicitOnly)
  ∧ RangeOrder (headers (sender Relays.submission) Relays.three "Hi")
               (rangeOrder (Relays.withOrder Relays.otherOrder Relays.implicitOnly))
  ∧ envelope Relays.implicitOnly Relays.submission Relays.three "Hi" "<p>x</p>"
    ≠ envelope (Relays.withOrder Relays.otherOrder Relays.implicitOnly)
        Relays.submission Relays.three "Hi" "<p>x</p>".
Proof.
  unfold RangeOrder. split; [compute_done|]. split; [compute_done|].
  compute_done.
Qed.

(** *** The convenience senders *)

Lemma HasPrefix_append (s t : string) : HasPrefix (s +:+ t) s = true.
Proof.
  induction s as [|a s IH]; [done|].
  change (String a s +:+ t) with (String a (s +:+ t)). simpl.
  by rewrite Ascii.eqb_refl.
Qed.

(** A text that was put between two others is found by
    [strings.Contains]. *)
Lemma Contains_infix (pre s post : string) :
  Contains (pre +:+ s +:+ post) s = true.
Proof.
  induction pre as [|a pre IH].
  - change (EmptyString +:+ s +:+ post) with (s +:+ post).
    destruct (s +:+ post) eqn:Heq; simpl; rewrite <- Heq, HasPrefix_append; done.
  - change (String a pre +:+ s +:+ post) with (String a (pre +:+ s +:+ post)).
    simpl. rewrite IH. apply orb_true_r.
Qed.

(** C8: for every recipient and every code, [SendOTP] is [Send] on the
    one-element list [[to]], with the subject "Your verification code" and
    a body in which the code stands, as it is, between two fixed pieces
    of HTML: the same result and the same log in every world. *)
Theorem SendOTP_delegates (w : World) (c : Client) (to code : string) :
  ∃ body,
    SendOTP w c to code = Send w c [to] "Your verification code" body
    ∧ (∃ pre post, body = pre +:+ code +:+ post)
    ∧ Contains body code = true.
Proof.
  exists ("<p>Your verification code is <strong>" +:+ code
          +:+ "</strong>. It will expire in 10 minutes.</p>").
  split; [reflexivity|]. split.
  - by exists "<p>Your verification code is <strong>",
              "</strong>. It will expire in 10 minutes.</p>".
  - apply Contains_infix.
Qed.

(** The example of the specification: the code 482913 sent to a@b.com. *)
Lemma SendOTP_delegates_witness :
  ∃ body,
    SendOTP Relays.implicitOnly Relays.submission "a@b.com" "482913"
    = Send Relays.implicitOnly Relays.submission ["a@b.com"]
        "Your verification code" body
    ∧ Contains body "482913" = true.
Proof.
  destruct (SendOTP_delegates Relays.implicitOnly Relays.submission
              "a@b.com" "482913") as (body & Hsend & _ & Hsub).
  exists body. split; [exact Hsend|exact Hsub].
Defined.

(** * Properties of the password package *)

Import Password.

Section PasswordProofs.

Context `{Bcrypt}.

(** C9: [Hash] takes its cost from the variable BCRYPT_COST of the
    environment it is called in.  When the variable is not set, or is
    set to a text that [strconv.Atoi] does not accept, the cost given to
    bcrypt is the default cost; when it is set to a text that parses,
    the cost is the parsed number. *)
Theorem Hash_cost_from_environment
    (env : gmap string string) (rnd : list Byte.byte) (password : string) :
  (env !! "BCRYPT_COST" = None →
     Hash env rnd password = hashWithCost DefaultCost rnd password)
  ∧ (∀ v, env !! "BCRYPT_COST" = Some v → Atoi v = None →
     Hash env rnd password = hashWithCost DefaultCost rnd password)
  ∧ (∀ v n, env !! "BCRYPT_COST" = Some v → Atoi v = Some n →
     Hash env rnd password = hashWithCost n rnd password).
Proof.
  unfold Hash, hashWithCost, Getenv. split; [|split].
  - by intros ->.
  - intros v -> Hv. simpl. rewrite Hv. by destruct (decide (v ≠ EmptyString)).
  - intros v n -> Hv. simpl. rewrite Hv.
    destruct (decide (v ≠ EmptyString)) as [|Hempty]; [done|].
    apply dec_stable in Hempty. by subst v.
Qed.


End PasswordProofs.

(** The three cases on the stand-in: the variable not set, set to a word,
    set to a number. *)
Lemma Hash_cost_from_environment_witness :
  @Hash toyBcrypt ∅ [] "hunter2" = @hashWithCost toyBcrypt 10 [] "hunter2"
  ∧ @Hash toyBcrypt {["BCRYPT_COST" := "twelve"]} [] "hunter2"
    = @hashWithCost toyBcrypt 10 [] "hunter2"
  ∧ @Hash toyBcrypt {["BCRYPT_COST" := "12"]} [] "hunter2"
    = @hashWithCost toyBcrypt 12 [] "hunter2".
Proof.
  split; [|split].
  - destruct (@Hash_cost_from_environment toyBcrypt ∅ [] "hunter2")
      as (Hunset & _ & _).
    apply Hunset. reflexivity.
  - destruct (@Hash_cost_from_environment toyBcrypt
                {["BCRYPT_COST" := "twelve"]} [] "hunter2") as (_ & Hword & _).
    apply (Hword "twelve"); vm_compute; reflexivity.
  - destruct (@Hash_cost_from_environment toyBcrypt
                {["BCRYPT_COST" := "12"]} [] "hunter2") as (_ & _ & Hnumber).
    apply (Hnumber "12" 12); vm_compute; reflexivity.
Defined.


(** * Further properties of the mail dispatcher *)

(** ** The implicit-TLS session *)

Lemma Forall_accepted_succeeded (to : list string) :
  Forall (λ en, succeeded en = true) (accepted to).
Proof. unfold accepted. by apply Forall_fmap, Forall_true. Qed.

Lemma Forall_accepted_open (to : list string) :
  Forall (λ en, isClose en = false) (accepted to).
Proof. unfold accepted. by apply Forall_fmap, Forall_true. Qed.

Lemma Authenticated_succeeded (auth : option Auth) (au : list Entry) :
  Authenticated auth au → Forall (λ en, succeeded en = true) au.
Proof. intros []; repeat constructor. Qed.

Lemma Authenticated_open (auth : option Auth) (au : list Entry) :
  Authenticated auth au → Forall (λ en, isClose en = false) au.
Proof. intros []; repeat constructor. Qed.

Ltac forall_entries :=
  repeat first
    [ apply Forall_nil_2
    | apply Forall_accepted_succeeded
    | apply Forall_accepted_open
    | by eapply Authenticated_succeeded
    | by eapply Authenticated_open
    | apply Forall_app_2
    | apply Forall_cons_2; [reflexivity|] ].

(** A run is a body of protocol calls followed by the deferred closes; in
    the body every call but possibly the last succeeded, and the error
    returned is the error of that last call under the context of its
    stage. *)
Lemma TLSRun_decompose c addr auth from to msg r evs :
  TLSRun c addr auth from to msg r evs →
  ∃ body closes,
    evs = body ++ closes
    ∧ Forall (λ en, isClose en = true) closes
    ∧ Forall (λ en, isClose en = false) body
    ∧ match r with
      | None => Forall (λ en, succeeded en = true) body
      | Some err =>
          ∃ good ev e,
            body = good ++ [failed ev e]
            ∧ Forall (λ en, succeeded en = true) good
            ∧ err = Errorf_w (stageContext ev) e
      end.
Proof.
  intros [e|e r1|r0 evs0 r1 r2 Hs].
  - exists [failed (dial c addr) e], []. rewrite app_nil_r.
    split; [done|]. split; [forall_entries|]. split; [forall_entries|].
    exists [], (dial c addr), e. split; [done|]. split; [forall_entries|done].
  - exists [ok (dial c addr); failed (EvNewClient (Host c)) e],
           [(EvConnClose, Done r1)].
    split; [done|]. split; [forall_entries|]. split; [forall_entries|].
    exists [ok (dial c addr)], (EvNewClient (Host c)), e.
    split; [done|]. split; [forall_entries|done].
  - exists (ok (dial c addr) :: ok (EvNewClient (Host c)) :: evs0),
           [(EvClientClose, Done r1); (EvConnClose, Done r2)].
    split; [done|]. split; [forall_entries|].
    destruct Hs as [a p e Ha|au e Hau|au pre a post e Hau Hto|au e Hau
                   |au e Hau|au e Hau|au e Hau|au Hau].
    + split; [forall_entries|].
      exists [ok (dial c addr); ok (EvNewClient (Host c));
              (EvExtension "AUTH", Ext true p)], (EvAuth a), e.
      split; [done|]. split; [forall_entries|done].
    + split; [forall_entries|].
      exists (ok (dial c addr) :: ok (EvNewClient (Host c)) :: au),
             (EvMail from), e.
      split; [done|]. split; [forall_entries|done].
    + split; [forall_entries|].
      exists (ok (dial c addr) :: ok (EvNewClient (Host c))
                :: au ++ ok (EvMail from) :: accepted pre), (EvRcpt a), e.
      split; [simpl; by rewrite <- !app_assoc|]. split; [forall_entries|done].
    + split; [forall_entries|].
      exists (ok (dial c addr) :: ok (EvNewClient (Host c))
                :: au ++ ok (EvMail from) :: accepted to), EvData, e.
      split; [simpl; by rewrite <- !app_assoc|]. split; [forall_entries|done].
    + split; [forall_entries|].
      exists (ok (dial c addr) :: ok (EvNewClient (Host c))
                :: au ++ ok (EvMail from) :: accepted to ++ [ok EvData]),
             (EvWrite msg), e.
      split; [simpl; by repeat (rewrite <- app_assoc; simpl)|].
      split; [forall_entries|done].
    + split; [forall_entries|].
      exists (ok (dial c addr) :: ok (EvNewClient (Host c))
                :: au ++ ok (EvMail from) :: accepted to
                ++ [ok EvData; ok (EvWrite msg)]), EvWriterClose, e.
      split; [simpl; by repeat (rewrite <- app_assoc; simpl)|].
      split; [forall_entries|done].
    + split; [forall_entries|].
      exists (ok (dial c addr) :: ok (EvNewClient (Host c))
                :: au ++ ok (EvMail from) :: accepted to
                ++ [ok EvData; ok (EvWrite msg); ok EvWriterClose]), EvQuit, e.
      split; [simpl; by repeat (rewrite <- app_assoc; simpl)|].
      split; [forall_entries|done].
    + split; forall_entries.
Qed.




Lemma rcptsOf_app (l1 l2 : list Entry) :
  rcptsOf (l1 ++ l2) = rcptsOf l1 ++ rcptsOf l2.
Proof. unfold rcptsOf. apply omap_app. Qed.

Lemma rcptsOf_accepted (to : list string) : rcptsOf (accepted to) = to.
Proof. induction to as [|a to IH]; [done|]. simpl. by rewrite IH. Qed.

Lemma rcptsOf_Authenticated (auth : option Auth) (au : list Entry) :
  Authenticated auth au → rcptsOf au = [].
Proof. by intros []. Qed.

(** The recipients declared in a session: all of them once DATA was
    reached, those before the rejected one otherwise. *)
Lemma rcptsOf_Session auth from to msg r evs :
  Session auth from to msg r evs →
  rcptsOf evs `prefix_of` to
  ∧ ((∃ rep, (EvData, rep) ∈ evs) → rcptsOf evs = to).
Proof.
  pose proof (elem_of_Authenticated auth) as HA.
  intros [a p e Ha|au e Hau|au pre a post e Hau Hto|au e Hau
         |au e Hau|au e Hau|au e Hau|au Hau].
  all: rewrite ?rcptsOf_app; try rewrite (rcptsOf_Authenticated _ _ Hau).
  all: simpl; rewrite ?rcptsOf_app, ?rcptsOf_accepted; simpl;
       rewrite ?app_nil_r.
  all: split; [|try done].
  all: try apply prefix_nil.
  all: try reflexivity.
  - intros [rep Hin]. set_unfold. naive_solver.
  - intros [rep Hin].
    repeat first [rewrite elem_of_app in Hin | rewrite elem_of_cons in Hin
                 | rewrite elem_of_nil in Hin].
    unfold failed, ok in *. naive_solver.
  - subst to. exists post. by rewrite <- app_assoc.
  - intros [rep Hin].
    repeat first [rewrite elem_of_app in Hin | rewrite elem_of_cons in Hin
                 | rewrite elem_of_accepted in Hin | rewrite elem_of_nil in Hin].
    unfold failed, ok in *. naive_solver.
Qed.

(** X1: the implicit-TLS path stops at the first call that fails.  When a
    call other than a deferred close returns an error, the function
    returns this error under the context of the stage, so that
    [errors.Unwrap] gives it back; every call before it succeeded, and
    only the deferred closes come after it. *)
Theorem sendUsingTLS_fails_fast
    (w : World) (c : Client) (addr : string) (auth : option Auth)
    (from : string) (to : list string) (msg : list Byte.byte)
    (h evs : list Entry) (r : option error) (ev : Event) (e : error) :
  sendUsingTLS w c addr auth from to msg h = (r, h ++ evs) →
  failed ev e ∈ evs →
  isClose (failed ev e) = false →
  r = Some (Errorf_w (stageContext ev) e)
  ∧ Unwrap (Errorf_w (stageContext ev) e) = Some e
  ∧ ∃ good closes,
      evs = good ++ failed ev e :: closes
      ∧ Forall (λ en, succeeded en = true) good
      ∧ Forall (λ en, isClose en = true) closes.
Proof.
  intros Hrun Hin Hopen. session_cases Hrun.
  destruct (TLSRun_decompose _ _ _ _ _ _ _ _ Hshape)
    as (body & closes & -> & Hcloses & Hbody & Hr).
  apply elem_of_app in Hin as [Hin|Hin].
  2: { rewrite Forall_forall in Hcloses. apply Hcloses in Hin. congruence. }
  destruct r as [err|].
  - destruct Hr as (good & ev0 & e0 & -> & Hgood & ->).
    apply elem_of_app in Hin as [Hin|Hin].
    { rewrite Forall_forall in Hgood. by apply Hgood in Hin. }
    apply list_elem_of_singleton in Hin. injection Hin as -> ->.
    split; [done|]. split; [done|].
    exists good, closes. by rewrite <- app_assoc.
  - rewrite Forall_forall in Hr. by apply Hr in Hin.
Qed.

(** The relay refuses the second mailbox: the first was accepted, the
    third is never declared. *)
Lemma sendUsingTLS_fails_fast_witness :
  let run :=
    sendUsingTLS (Relays.rejecting "bob@example.org") Relays.smtps
      (address Relays.smtps) (credentials Relays.smtps) (sender Relays.smtps)
      Relays.three [] [] in
  run.1 = Some (Errorf_w "rcpt to bob@example.org failed: "
                  (errorString "550 mailbox unavailable"))
  ∧ ∃ good closes,
      run.2 = good ++ failed (EvRcpt "bob@example.org")
                        (errorString "550 mailbox unavailable") :: closes
      ∧ Forall (λ en, succeeded en = true) good
      ∧ Forall (λ en, isClose en = true) closes.
Proof.
  intros run.
  destruct (sendUsingTLS_fails_fast
              (Relays.rejecting "bob@example.org") Relays.smtps
              (address Relays.smtps) (credentials Relays.smtps)
              (sender Relays.smtps) Relays.three [] [] run.2 run.1
              (EvRcpt "bob@example.org") (errorString "550 mailbox unavailable"))
    as (Hr & _ & Hshape).
  - vm_compute. reflexivity.
  - compute_done.
  - reflexivity.
  - exact (conj Hr Hshape).
Defined.



(** The shape of a run that returned nil. *)
Lemma TLSRun_delivered c addr auth from to msg r evs :
  TLSRun c addr auth from to msg r evs →
  (r = None ↔ ok EvQuit ∈ evs)
  ∧ (r = None →
     ∃ au r1 r2,
       Authenticated auth au
       ∧ evs = ok (dial c addr) :: ok (EvNewClient (Host c)) :: au
                 ++ ok (EvMail from) :: accepted to
                 ++ [ok EvData; ok (EvWrite msg); ok EvWriterClose; ok EvQuit;
                     (EvClientClose, Done r1); (EvConnClose, Done r2)]
       ∧ rcptsOf evs = to).
Proof.
  intros Hshape.
  pose proof (elem_of_Authenticated auth) as HA.
  destruct Hshape as [e0|e0 r1|r evs r1 r2 Hs].
  - split; [|done]. split; [done|]. intros Hin. set_unfold. naive_solver.
  - split; [|done]. split; [done|]. intros Hin. set_unfold.
    unfold failed, ok in *. naive_solver.
  - destruct Hs as [a p e Ha|au e Hau|au pre a post e Hau Hto|au e Hau
                   |au e Hau|au e Hau|au e Hau|au Hau].
    8: { split.
         - split; [intros _|done]. do 2 right.
           repeat first [rewrite elem_of_app | rewrite elem_of_cons]. naive_solver.
         - intros _. exists au, r1, r2. split; [done|]. split.
           + simpl. by repeat (rewrite <- app_assoc; simpl).
           + change (rcptsOf (?a :: ?b :: ?l)) with (rcptsOf l).
             rewrite !rcptsOf_app, (rcptsOf_Authenticated _ _ Hau).
             simpl. rewrite rcptsOf_app, rcptsOf_accepted. simpl.
             by rewrite !app_nil_r. }
    all: split; [|done]; split; [done|]; intros Hin; exfalso.
    all: repeat first [rewrite elem_of_app in Hin | rewrite elem_of_cons in Hin
                      | rewrite elem_of_accepted in Hin
                      | rewrite elem_of_nil in Hin].
    all: unfold failed, ok in *; naive_solver.
Qed.

(** X3: the implicit-TLS path returns nil exactly when QUIT succeeded, and
    then the log of the run is the whole exchange in order: the dial, the
    greeting, the authentication block, MAIL for the sender, RCPT for
    every recipient in the order of the list, DATA, one write of the
    whole message, the close of the writer, QUIT, and the two closes. *)
Theorem sendUsingTLS_delivered
    (w : World) (c : Client) (addr : string) (auth : option Auth)
    (from : string) (to : list string) (msg : list Byte.byte)
    (h evs : list Entry) (r : option error) :
  sendUsingTLS w c addr auth from to msg h = (r, h ++ evs) →
  (r = None ↔ ok EvQuit ∈ evs)
  ∧ (r = None →
     ∃ au r1 r2,
       Authenticated auth au
       ∧ evs = ok (dial c addr) :: ok (EvNewClient (Host c)) :: au
                 ++ ok (EvMail from) :: accepted to
                 ++ [ok EvData; ok (EvWrite msg); ok EvWriterClose; ok EvQuit;
                     (EvClientClose, Done r1); (EvConnClose, Done r2)]
       ∧ rcptsOf evs = to).
Proof.
  intros Hrun. session_cases Hrun. by eapply TLSRun_delivered.
Qed.

(** A relay that accepts everything on port 465. *)
Lemma sendUsingTLS_delivered_witness :
  let msg := envelope Relays.implicitOnly Relays.smtps Relays.three "Hi" "<p>x</p>" in
  let run :=
    sendUsingTLS Relays.implicitOnly Relays.smtps (address Relays.smtps)
      (credentials Relays.smtps) (sender Relays.smtps) Relays.three msg [] in
  ok EvQuit ∈ run.2 ∧ rcptsOf run.2 = Relays.three.
Proof.
  intros msg run.
  destruct (sendUsingTLS_delivered Relays.implicitOnly Relays.smtps
              (address Relays.smtps) (credentials Relays.smtps)
              (sender Relays.smtps) Relays.three msg [] run.2 run.1)
    as (Hquit & Hlog); [vm_compute; reflexivity|].
  split.
  - apply Hquit. vm_compute. reflexivity.
  - destruct Hlog as (au & r1 & r2 & _ & _ & Hrcpts); [vm_compute; reflexivity|].
    exact Hrcpts.
Defined.

(** In a whole run the recipients are those of the session. *)
Lemma rcptsOf_TLSRun c addr auth from to msg r evs :
  TLSRun c addr auth from to msg r evs →
  rcptsOf evs `prefix_of` to
  ∧ ((∃ rep, (EvData, rep) ∈ evs) → rcptsOf evs = to).
Proof.
  intros [e|e r1|r0 evs0 r1 r2 Hs].
  - split; [apply prefix_nil|]. intros [rep Hin]. set_unfold. naive_solver.
  - split; [apply prefix_nil|]. intros [rep Hin]. set_unfold.
    unfold failed, ok in *. naive_solver.
  - destruct (rcptsOf_Session _ _ _ _ _ _ Hs) as [Hpre Hall].
    change (rcptsOf (?a :: ?b :: ?l)) with (rcptsOf l).
    rewrite rcptsOf_app. simpl. rewrite app_nil_r.
    split; [done|]. intros [rep Hin]. apply Hall. exists rep.
    repeat first [rewrite elem_of_app in Hin | rewrite elem_of_cons in Hin
                 | rewrite elem_of_nil in Hin].
    unfold ok in *. naive_solver.
Qed.

(** X4: the implicit-TLS path declares the recipients in the order of the
    list, each position once and without skipping any: the addresses of
    the RCPT commands of a run are a prefix of the list, and they are the
    whole list whenever the DATA command was issued. *)
Theorem sendUsingTLS_recipients_in_order
    (w : World) (c : Client) (addr : string) (auth : option Auth)
    (from : string) (to : list string) (msg : list Byte.byte)
    (h evs : list Entry) (r : option error) :
  sendUsingTLS w c addr auth from to msg h = (r, h ++ evs) →
  rcptsOf evs `prefix_of` to
  ∧ ((∃ rep, (EvData, rep) ∈ evs) → rcptsOf evs = to).
Proof.
  intros Hrun. session_cases Hrun. by eapply rcptsOf_TLSRun.
Qed.

(** The second mailbox is refused: two RCPT commands were sent. *)
Lemma sendUsingTLS_recipients_in_order_witness :
  let run :=
    sendUsingTLS (Relays.rejecting "bob@example.org") Relays.smtps
      (address Relays.smtps) (credentials Relays.smtps) (sender Relays.smtps)
      Relays.three [] [] in
  rcptsOf run.2 = ["ada@example.org"; "bob@example.org"]
  ∧ rcptsOf run.2 `prefix_of` Relays.three.
Proof.
  intros run. split; [vm_compute; reflexivity|].
  apply (sendUsingTLS_recipients_in_order
           (Relays.rejecting "bob@example.org") Relays.smtps
           (address Relays.smtps) (credentials Relays.smtps)
           (sender Relays.smtps) Relays.three [] [] run.2 run.1).
  vm_compute. reflexivity.
Defined.



(** ** [Send] as a whole *)

(** The four ways a call of [Send] can go. *)
Lemma Send_cases
    (w : World) (c : Client) (to : list string) (subject body : string)
    (h evs : list Entry) (r : option error) :
  Send w c to subject body h = (r, h ++ evs) →
  (to = [] ∧ r = Some (errorString "no recipients specified") ∧ evs = [])
  ∨ (to ≠ [] ∧ Port c = 465
     ∧ TLSRun c (address c) (credentials c) (sender c) to
         (envelope w c to subject body) r evs)
  ∨ (to ≠ [] ∧ Port c ≠ 465 ∧ r = None
     ∧ evs = [ok (firstAttempt w c to subject body)])
  ∨ (to ≠ [] ∧ Port c ≠ 465
     ∧ ∃ e tls,
         evs = failed (firstAttempt w c to subject body) e :: warning e :: tls
         ∧ TLSRun c (address c) (credentials c) (sender c) to
             (envelope w c to subject body) r tls).
Proof.
  intros Hrun. destruct (decide (to = [])) as [->|Hto].
  { left. unfold Send in Hrun. simpl in Hrun. unfold mret, M_ret in Hrun.
    rewrite <- (app_nil_r h) in Hrun at 1.
    by apply run_new_entries in Hrun as [<- <-]. }
  right. rewrite Send_unfold in Hrun by done.
  destruct (decide (Port c = 465)) as [Hport|Hport].
  { left. by session_cases Hrun. }
  right. destruct (reply w h _) as [e|] eqn:Hreply.
  - right. do 2 (split; [done|]).
    destruct (sendUsingTLS_run w c (address c) (credentials c) (sender c) to
                (envelope w c to subject body)
                (h ++ [failed (firstAttempt w c to subject body) e; warning e]))
      as (r0 & tls & Htls & Hshape).
    rewrite Htls, <- app_assoc in Hrun.
    apply run_new_entries in Hrun as [-> <-]. by exists e, tls.
  - left. by apply run_new_entries in Hrun as [<- <-].
Qed.






(** What the commands of a run carry. *)
Lemma TLSRun_arguments c addr auth from to msg r evs :
  TLSRun c addr auth from to msg r evs →
  (∀ m rep, (EvWrite m, rep) ∈ evs → m = msg)
  ∧ (∀ f rep, (EvMail f, rep) ∈ evs → f = from)
  ∧ (∀ a rep, (EvAuth a, rep) ∈ evs → auth = Some a).
Proof.
  intros Hshape. pose proof (elem_of_Authenticated auth) as HA.
  destruct Hshape as [e0|e0 r1|r evs r1 r2 Hs]; [| |destruct Hs].
  all: split; [|split]; intros x rep Hin.
  all: repeat first
         [ rewrite elem_of_app in Hin | rewrite elem_of_cons in Hin
         | rewrite elem_of_accepted in Hin | rewrite elem_of_nil in Hin ].
  all: unfold failed, ok in *; naive_solver.
Qed.

(** X7: when the one-shot attempt succeeds, [Send] is done: it returns nil
    and the log of the call is this one attempt.  No TLS connection is
    opened and the message is not sent a second time. *)
Theorem Send_first_attempt_suffices
    (w : World) (c : Client) (to : list string) (subject body : string)
    (h evs : list Entry) (r : option error)
    (addr : string) (a : option Auth) (from : string) (to' : list string)
    (msg : list Byte.byte) :
  Send w c to subject body h = (r, h ++ evs) →
  ok (EvSendMail addr a from to' msg) ∈ evs →
  r = None
  ∧ evs = [ok (EvSendMail addr a from to' msg)]
  ∧ EvSendMail addr a from to' msg = firstAttempt w c to subject body.
Proof.
  intros Hrun Hin.
  destruct (Send_cases _ _ _ _ _ _ _ _ Hrun)
    as [(_ & _ & ->)|[(_ & _ & Hshape)|[(_ & _ & -> & ->)
       |(_ & _ & e & tls & -> & Hshape)]]].
  - by apply elem_of_nil in Hin.
  - by pose proof (TLSRun_no_SendMail _ _ _ _ _ _ _ _ Hshape _ Hin).
  - apply list_elem_of_singleton in Hin.
    assert (EvSendMail addr a from to' msg = firstAttempt w c to subject body)
      as Heq by (unfold ok in Hin; congruence).
    by rewrite Heq.
  - apply elem_of_cons in Hin as [Heq|Hin]; [discriminate Heq|].
    apply elem_of_cons in Hin as [Heq|Hin]; [discriminate Heq|].
    by pose proof (TLSRun_no_SendMail _ _ _ _ _ _ _ _ Hshape _ Hin).
Qed.

(** A relay that takes the message on port 587. *)
Lemma Send_first_attempt_suffices_witness :
  let accepting := Relays.scripted (λ _, None) in
  let run :=
    Send accepting Relays.submission Relays.three "Hi" "<p>x</p>" [] in
  run.1 = None
  ∧ run.2 = [ok (firstAttempt accepting Relays.submission Relays.three
                   "Hi" "<p>x</p>")].
Proof.
  intros accepting run.
  destruct (Send_first_attempt_suffices accepting Relays.submission
              Relays.three "Hi" "<p>x</p>" [] run.2 run.1
              (address Relays.submission) (credentials Relays.submission)
              (sender Relays.submission) Relays.three
              (envelope accepting Relays.submission Relays.three "Hi" "<p>x</p>"))
    as (Hr & Hevs & _).
  - vm_compute. reflexivity.
  - compute_done.
  - split; [exact Hr|exact Hevs].
Defined.

(** X8: when [Send] returns nil the message was handed to the relay:
    either the one-shot routine took it (and this is the whole log), or a
    TLS session declared every recipient in order, wrote the envelope of
    this call and ended with a successful QUIT. *)
Theorem Send_nil_means_handed_over
    (w : World) (c : Client) (to : list string) (subject body : string)
    (h evs : list Entry) :
  Send w c to subject body h = (None, h ++ evs) →
  to ≠ []
  ∧ ((Port c ≠ 465 ∧ evs = [ok (firstAttempt w c to subject body)])
     ∨ (rcptsOf evs = to
        ∧ ok (EvWrite (envelope w c to subject body)) ∈ evs
        ∧ ok EvQuit ∈ evs)).
Proof.
  intros Hrun.
  destruct (Send_cases _ _ _ _ _ _ _ _ Hrun)
    as [(_ & Hr & _)|[(Hto & _ & Hshape)|[(Hto & Hport & _ & ->)
       |(Hto & _ & e & tls & -> & Hshape)]]].
  - discriminate Hr.
  - split; [done|]. right.
    destruct (TLSRun_delivered _ _ _ _ _ _ _ _ Hshape) as [Hquit Hlog].
    destruct Hlog as (au & r1 & r2 & _ & Hevs & Hrcpts); [done|].
    split; [done|]. split; [|by apply Hquit].
    rewrite Hevs. do 2 right.
    repeat first [rewrite elem_of_app | rewrite elem_of_cons]. naive_solver.
  - split; [done|]. by left.
  - split; [done|]. right.
    destruct (TLSRun_delivered _ _ _ _ _ _ _ _ Hshape) as [Hquit Hlog].
    destruct Hlog as (au & r1 & r2 & _ & Hevs & Hrcpts); [done|].
    split; [exact Hrcpts|]. split; [|do 2 right; by apply Hquit].
    rewrite Hevs. do 4 right.
    repeat first [rewrite elem_of_app | rewrite elem_of_cons]. naive_solver.
Qed.

(** Port 587 does not answer to the one-shot routine, the TLS session
    delivers. *)
Lemma Send_nil_means_handed_over_witness :
  let run :=
    Send Relays.implicitOnly Relays.submission Relays.three "Hi" "<p>x</p>" [] in
  rcptsOf run.2 = Relays.three
  ∧ ok (EvWrite (envelope Relays.implicitOnly Relays.submission Relays.three
                   "Hi" "<p>x</p>")) ∈ run.2
  ∧ ok EvQuit ∈ run.2.
Proof.
  intros run.
  destruct (Send_nil_means_handed_over Relays.implicitOnly Relays.submission
              Relays.three "Hi" "<p>x</p>" [] run.2) as [_ [[_ Hone]|Hsession]].
  - vm_compute. reflexivity.
  - exfalso. vm_compute in Hone. discriminate Hone.
  - exact Hsession.
Defined.

(** X9: whatever the transport, the commands of one call of [Send] carry
    the data of this call.  The sender of MAIL is [c.From], or
    [c.Username] when [c.From] is empty; an AUTH command carries the
    PLAIN credentials of the client (empty identity, its user name and
    password, bound to its host); a write carries the envelope built for
    this call; and the RCPT commands declare a prefix of the recipient
    list, in order. *)
Theorem Send_session_arguments
    (w : World) (c : Client) (to : list string) (subject body : string)
    (h evs : list Entry) (r : option error) :
  Send w c to subject body h = (r, h ++ evs) →
  (∀ f rep, (EvMail f, rep) ∈ evs →
     f = if decide (From c = EmptyString) then Username c else From c)
  ∧ (∀ a rep, (EvAuth a, rep) ∈ evs →
     a = mkPlainAuth EmptyString (Username c) (Password c) (Host c))
  ∧ (∀ m rep, (EvWrite m, rep) ∈ evs → m = envelope w c to subject body)
  ∧ rcptsOf evs `prefix_of` to.
Proof.
  intros Hrun.
  assert (∀ tls,
            TLSRun c (address c) (credentials c) (sender c) to
              (envelope w c to subject body) r tls →
            (∀ f rep, (EvMail f, rep) ∈ tls → f = sender c)
            ∧ (∀ a rep, (EvAuth a, rep) ∈ tls →
                 a = mkPlainAuth EmptyString (Username c) (Password c) (Host c))
            ∧ (∀ m rep, (EvWrite m, rep) ∈ tls →
                 m = envelope w c to subject body)
            ∧ rcptsOf tls `prefix_of` to) as Htls.
  { intros tls Hshape.
    destruct (TLSRun_arguments _ _ _ _ _ _ _ _ Hshape) as (Hw & Hm & Ha).
    split; [done|]. split.
    { intros a rep Hin. apply Ha in Hin. by injection Hin as <-. }
    split; [done|]. by eapply rcptsOf_TLSRun. }
  destruct (Send_cases _ _ _ _ _ _ _ _ Hrun)
    as [(_ & _ & ->)|[(_ & _ & Hshape)|[(_ & _ & _ & ->)
       |(_ & _ & e & tls & -> & Hshape)]]].
  - repeat split; try apply prefix_nil; intros ? ? Hin;
      by apply elem_of_nil in Hin.
  - by apply Htls.
  - repeat split; try apply prefix_nil; intros ? ? Hin;
      apply list_elem_of_singleton in Hin; discriminate Hin.
  - destruct (Htls tls Hshape) as (Hm & Ha & Hw & Hpre).
    repeat split; try exact Hpre; intros x rep Hin.
    all: apply elem_of_cons in Hin as [Heq|Hin]; [discriminate Heq|].
    all: apply elem_of_cons in Hin as [Heq|Hin]; [discriminate Heq|].
    all: eauto.
Qed.

(** A client without a From address, on port 465. *)
Lemma Send_session_arguments_witness :
  let client := NewClient "smtp.example.org" 465 "noreply@example.org" "s3cret"
                  EmptyString in
  let run := Send Relays.hangingUp client Relays.three "Hi" "<p>x</p>" [] in
  (∀ f rep, (EvMail f, rep) ∈ run.2 → f = "noreply@example.org")
  ∧ rcptsOf run.2 `prefix_of` Relays.three.
Proof.
  intros client run.
  destruct (Send_session_arguments Relays.hangingUp client Relays.three
              "Hi" "<p>x</p>" [] run.2 run.1) as (Hm & _ & _ & Hpre).
  - vm_compute. reflexivity.
  - split; [exact Hm|exact Hpre].
Defined.

(** X10: the errors of [Send].  An error returned by [Send] is either the
    precondition error, for the empty list, or the error of a call of the
    TLS path (never of the one-shot routine and never of a close) under
    the context of its stage; that call is in the log of this call of
    [Send]. *)
Theorem Send_errors
    (w : World) (c : Client) (to : list string) (subject body : string)
    (h evs : list Entry) (err : error) :
  Send w c to subject body h = (Some err, h ++ evs) →
  (to = [] ∧ err = errorString "no recipients specified" ∧ evs = [])
  ∨ (to ≠ []
     ∧ ∃ ev e,
         err = Errorf_w (stageContext ev) e
         ∧ failed ev e ∈ evs
         ∧ isSendMail (failed ev e) = false
         ∧ isClose (failed ev e) = false).
Proof.
  intros Hrun.
  assert (∀ tls,
            TLSRun c (address c) (credentials c) (sender c) to
              (envelope w c to subject body) (Some err) tls →
            ∃ ev e,
              err = Errorf_w (stageContext ev) e
              ∧ failed ev e ∈ tls
              ∧ isSendMail (failed ev e) = false
              ∧ isClose (failed ev e) = false) as Htls.
  { intros tls Hshape.
    destruct (TLSRun_decompose _ _ _ _ _ _ _ _ Hshape)
      as (good' & closes & -> & _ & Hbody & good & ev & e & -> & _ & ->).
    assert (failed ev e ∈ (good ++ [failed ev e]) ++ closes) as Hin
      by (rewrite !elem_of_app, list_elem_of_singleton; auto).
    exists ev, e. split; [done|]. split; [exact Hin|]. split.
    - by eapply TLSRun_no_SendMail.
    - apply Forall_app in Hbody as [_ Hlast].
      by apply Forall_cons_1 in Hlast as [Hlast _]. }
  destruct (Send_cases _ _ _ _ _ _ _ _ Hrun)
    as [(-> & [= <-] & ->)|[(Hto & _ & Hshape)|[(_ & _ & Hr & _)
       |(Hto & _ & e1 & tls & -> & Hshape)]]].
  - by left.
  - right. split; [done|]. by apply Htls.
  - discriminate Hr.
  - right. split; [done|].
    destruct (Htls tls Hshape) as (ev & e & Herr & Hin & Hsm & Hcl).
    exists ev, e. split; [done|]. split; [|done]. by do 2 right.
Qed.

(** The relay cannot be reached at all: the error is the dial's. *)
Lemma Send_errors_witness :
  let run :=
    Send Relays.unreachable Relays.submission Relays.three "Hi" "<p>x</p>" [] in
  ∃ ev e,
    Errorf_w "tls dial: " (errorString "i/o timeout")
    = Errorf_w (stageContext ev) e
    ∧ failed ev e ∈ run.2
    ∧ isSendMail (failed ev e) = false
    ∧ isClose (failed ev e) = false.
Proof.
  intros run.
  destruct (Send_errors Relays.unreachable Relays.submission Relays.three
              "Hi" "<p>x</p>" [] run.2
              (Errorf_w "tls dial: " (errorString "i/o timeout")))
    as [(Hempty & _)|(_ & Hstage)].
  - vm_compute. reflexivity.
  - discriminate Hempty.
  - exact Hstage.
Defined.

(** ** The convenience senders, again *)



